(** * WW2 memory game: the game engine of [src/block.tsx]

    The React component [Block] keeps its game session in eight [useState]
    cells and changes them from three places: the click handler
    [handleCardClick], the two [setTimeout] callbacks that resolve a pair, and
    [initializeGame] (mount and the "New Game" button).  Two [useEffect]s
    react to the committed state: the 100 ms sampler and the win check that
    posts the completion record.

    The embedding follows that structure.  A [Game] record holds the eight
    cells, every setter of the source is a function on [Game], a handler
    reads the cells of the render it closes over and queues its updates
    (explicit state passing), pending [setTimeout] callbacks are data
    ([Timeout], the captured [firstId] and [secondId] and the branch that
    scheduled them), and one [step] of the system is one browser event
    followed by the render and the effects it triggers.  Numbers are [Z]
    (JavaScript numbers, far from 2^53 here), strings are [string] holding
    the UTF-8 bytes of the source literals. *)

From Stdlib Require Import ZArith List String Bool Permutation Lia.
From Stdlib Require Import Decimal DecimalString DecimalZ DecimalPos.
Import ListNotations.
Open Scope string_scope.
Open Scope list_scope.
Open Scope Z_scope.

(** ** Data model *)

Record Item := mkItem { item_symbol : string; item_name : string }.

Definition WW2_ITEMS : list Item :=
  [ mkItem "✈️" "Fighter Plane";
    mkItem "🚁" "Helicopter";
    mkItem "🚢" "Battleship";
    mkItem "⚓" "Naval Anchor";
    mkItem "🪖" "Military Helmet";
    mkItem "🎖️" "Military Medal";
    mkItem "💣" "Bomb";
    mkItem "🔫" "Rifle";
    mkItem "🗺️" "Battle Map";
    mkItem "📻" "Radio";
    mkItem "🚂" "Military Train";
    mkItem "⭐" "Military Star" ].

Record Card := mkCard {
  id : Z;
  symbol : string;
  name : string;
  matched : bool;
  flipped : bool
}.

(** The object spreads of the source: [{ ...card, flipped: true }],
    [{ ...card, matched: true, flipped: false }], [{ ...card, flipped: false }]. *)
Definition spread_flipped (v : bool) (card : Card) : Card :=
  mkCard (id card) (symbol card) (name card) (matched card) v.

Definition spread_matched_flipped (m f : bool) (card : Card) : Card :=
  mkCard (id card) (symbol card) (name card) m f.

(** The eight [useState] cells of the component. *)
Record Game := mkGame {
  cards : list Card;
  flippedCards : list Z;
  matchedPairs : Z;
  moves : Z;
  gameStarted : bool;
  gameWon : bool;
  startTime : Z;
  timeElapsed : Z
}.

(** The initial values given to [useState]. *)
Definition useState_defaults : Game :=
  mkGame [] [] 0 0 false false 0 0.

(** The setters.  [setCards], [setMatchedPairs] and [setMoves] are used with
    an updater function in the source; a plain value is the constant
    updater. *)
Definition setCards (f : list Card -> list Card) (g : Game) : Game :=
  mkGame (f (cards g)) (flippedCards g) (matchedPairs g) (moves g)
         (gameStarted g) (gameWon g) (startTime g) (timeElapsed g).

Definition setFlippedCards (v : list Z) (g : Game) : Game :=
  mkGame (cards g) v (matchedPairs g) (moves g)
         (gameStarted g) (gameWon g) (startTime g) (timeElapsed g).

Definition setMatchedPairs (f : Z -> Z) (g : Game) : Game :=
  mkGame (cards g) (flippedCards g) (f (matchedPairs g)) (moves g)
         (gameStarted g) (gameWon g) (startTime g) (timeElapsed g).

Definition setMoves (f : Z -> Z) (g : Game) : Game :=
  mkGame (cards g) (flippedCards g) (matchedPairs g) (f (moves g))
         (gameStarted g) (gameWon g) (startTime g) (timeElapsed g).

Definition setGameStarted (v : bool) (g : Game) : Game :=
  mkGame (cards g) (flippedCards g) (matchedPairs g) (moves g)
         v (gameWon g) (startTime g) (timeElapsed g).

Definition setGameWon (v : bool) (g : Game) : Game :=
  mkGame (cards g) (flippedCards g) (matchedPairs g) (moves g)
         (gameStarted g) v (startTime g) (timeElapsed g).

Definition setStartTime (v : Z) (g : Game) : Game :=
  mkGame (cards g) (flippedCards g) (matchedPairs g) (moves g)
         (gameStarted g) (gameWon g) v (timeElapsed g).

Definition setTimeElapsed (v : Z) (g : Game) : Game :=
  mkGame (cards g) (flippedCards g) (matchedPairs g) (moves g)
         (gameStarted g) (gameWon g) (startTime g) v.

(** ** Deck builder *)

(** [getGridSize]: a [switch] on the difficulty string with a default. *)
Definition getGridSize (diff : string) : Z :=
  if String.eqb diff "easy" then 4
  else if String.eqb diff "medium" then 4
  else if String.eqb diff "hard" then 6
  else 4.

Definition gridSize (difficulty : string) : Z := getGridSize difficulty.

Definition totalPairs (difficulty : string) : Z := (gridSize difficulty * 4) / 2.

(** One round of the [forEach] of [initializeGame]: two [push]es, each taking
    the next [cardId++]. *)
Definition push_pair (acc : Z * list Card) (item : Item) : Z * list Card :=
  let '(cardId, gameCards) := acc in
  let gameCards1 :=
    gameCards ++ [mkCard cardId (item_symbol item) (item_name item) false false] in
  let cardId1 := cardId + 1 in
  let gameCards2 :=
    gameCards1 ++ [mkCard cardId1 (item_symbol item) (item_name item) false false] in
  (cardId1 + 1, gameCards2).

Definition createPairs (selectedItems : list Item) : list Card :=
  snd (fold_left push_pair selectedItems (0, [])).

(** [WW2_ITEMS.slice(0, totalPairs)]. *)
Definition selectedItems (difficulty : string) : list Item :=
  firstn (Z.to_nat (totalPairs difficulty)) WW2_ITEMS.

(** A concrete shuffle, used to run the engine on examples: the deck rotated
    by [seed] places. *)
Definition rotate_deck (seed : nat) (l : list Card) : list Card :=
  let k := Nat.modulo seed (List.length l) in
  skipn k l ++ firstn k l.

(** ** Timers and messages *)

(** A pending [setTimeout] callback of [handleCardClick].  The closure
    captures [firstId] and [secondId] and nothing else of the render; [branch]
    tells which of the two callbacks it is, [delay] is the second argument of
    [setTimeout] and [due] the time at which the browser runs it. *)
Inductive Branch := MatchFound | NoMatch.

Record Timeout := mkTimeout {
  firstId : Z;
  secondId : Z;
  branch : Branch;
  delay : Z;
  due : Z
}.

(** The object built by the win check, and the two windows it is posted to
    ([window.postMessage] and [window.parent.postMessage]). *)
Record CompletionData := mkCompletionData {
  type : string;
  blockId : string;
  completed : bool;
  score : Z;
  maxScore : Z;
  timeSpent : Z;
  data_moves : Z;
  data_timeElapsed : Z;
  data_difficulty : string
}.

Inductive Target := ToWindow | ToParent.

(** The component together with its environment: the committed state, the
    callbacks waiting in the timer queue (in scheduling order) and every
    message posted so far (oldest first). *)
Record Sys := mkSys {
  game : Game;
  timers : list Timeout;
  posted : list (Target * CompletionData)
}.

(** What the user, the timer queue and the sampler can do to the component.
    [Click] is [onClick={() => handleCardClick(card.id)}] at time
    [Date.now() = now], [NewGame] the "New Game" button, [TimeoutFires i] the
    browser running the [i]-th pending callback, [IntervalTick] one tick of
    the 100 ms sampler. *)
Inductive Event :=
  | Click (now : Z) (cardId : Z)
  | NewGame (seed : nat)
  | TimeoutFires (i : nat)
  | IntervalTick (now : Z).

(** [cards.find(card => card.id === cardId)] *)
Definition findCard (cardId : Z) (l : list Card) : option Card :=
  find (fun card => id card =? cardId) l.

(** [x?.matched] used as a condition: [undefined] is falsy. *)
Definition optional_matched (o : option Card) : bool :=
  match o with
  | Some card => matched card
  | None => false
  end.

(** [flippedCards.includes(cardId)] *)
Definition includes (cardId : Z) (l : list Z) : bool :=
  existsb (fun x => x =? cardId) l.

(** [firstCard && secondCard && firstCard.symbol === secondCard.symbol] *)
Definition sameSymbol (firstCard secondCard : option Card) : bool :=
  match firstCard, secondCard with
  | Some c1, Some c2 => String.eqb (symbol c1) (symbol c2)
  | _, _ => false
  end.

(** The two [setTimeout] callbacks. *)
Definition matchCallback (firstId secondId : Z) (g : Game) : Game :=
  let g := setCards (map (fun card =>
             if (id card =? firstId) || (id card =? secondId)
             then spread_matched_flipped true false card
             else card)) g in
  let g := setMatchedPairs (fun prev => prev + 1) g in
  setFlippedCards [] g.

Definition noMatchCallback (firstId secondId : Z) (g : Game) : Game :=
  let g := setCards (map (fun card =>
             if (id card =? firstId) || (id card =? secondId)
             then spread_flipped false card
             else card)) g in
  setFlippedCards [] g.

Definition runTimeout (t : Timeout) (g : Game) : Game :=
  match branch t with
  | MatchFound => matchCallback (firstId t) (secondId t) g
  | NoMatch => noMatchCallback (firstId t) (secondId t) g
  end.

(** [handleCardClick].  The handler reads the cells of the render it was
    created in ([g0]) and queues its updates; the result is the state after
    the queue is applied, with the callback it scheduled, if any. *)
Definition handleCardClick (now cardId : Z) (g0 : Game) : Game * list Timeout :=
  let g :=
    if negb (gameStarted g0)
    then setStartTime now (setGameStarted true g0)
    else g0 in
  if Z.of_nat (List.length (flippedCards g0)) =? 2 then (g, [])
  else if includes cardId (flippedCards g0) then (g, [])
  else if optional_matched (findCard cardId (cards g0)) then (g, [])
  else
    let newFlippedCards := flippedCards g0 ++ [cardId] in
    let g := setFlippedCards newFlippedCards g in
    let g := setCards (map (fun card =>
               if id card =? cardId then spread_flipped true card else card)) g in
    if Z.of_nat (List.length newFlippedCards) =? 2 then
      let g := setMoves (fun prev => prev + 1) g in
      let firstId := nth 0 newFlippedCards 0 in
      let secondId := nth 1 newFlippedCards 0 in
      let firstCard := findCard firstId (cards g0) in
      let secondCard := findCard secondId (cards g0) in
      if sameSymbol firstCard secondCard
      then (g, [mkTimeout firstId secondId MatchFound 1000 (now + 1000)])
      else (g, [mkTimeout firstId secondId NoMatch 1500 (now + 1500)])
    else (g, []).

(** The sampler: [setTimeElapsed(Date.now() - startTime)].  Its interval
    exists while [gameStarted && !gameWon]; the effect is re-created when
    [startTime] changes, so the callback sees the committed [startTime]. *)
Definition intervalActive (g : Game) : bool :=
  gameStarted g && negb (gameWon g).

Definition intervalCallback (now : Z) (g : Game) : Game :=
  setTimeElapsed (now - startTime g) g.

(** [l] without its [i]-th element. *)
Definition dropTimer (i : nat) (l : list Timeout) : list Timeout :=
  firstn i l ++ skipn (S i) l.

Section Engine.

(** [gameCards.sort(() => Math.random() - 0.5)]: the sort of the JavaScript
    engine under a random comparator is not part of the source; it is taken
    as a parameter that returns the array rearranged, [seed] standing for the
    state of [Math.random]. *)
Variable shuffle : nat -> list Card -> list Card.
Hypothesis shuffle_perm : forall seed l, Permutation l (shuffle seed l).

(** The [difficulty] prop, fixed for the life of the component. *)
Variable difficulty : string.

Definition initializeGame (seed : nat) (g : Game) : Game :=
  let gameCards := createPairs (selectedItems difficulty) in
  let shuffled := shuffle seed gameCards in
  let g := setCards (fun _ => shuffled) g in
  let g := setFlippedCards [] g in
  let g := setMatchedPairs (fun _ => 0) g in
  let g := setMoves (fun _ => 0) g in
  let g := setGameWon false g in
  let g := setGameStarted false g in
  setTimeElapsed 0 g.

(** The win check.  Its dependency array is [matchedPairs, totalPairs,
    gameStarted, moves, timeElapsed, difficulty]; [totalPairs] and
    [difficulty] do not change, so the effect runs after a render exactly
    when one of the other four cells differs from the previous render. *)
Definition depsChanged (prev next : Game) : bool :=
  negb ((matchedPairs prev =? matchedPairs next)
        && Bool.eqb (gameStarted prev) (gameStarted next)
        && (moves prev =? moves next)
        && (timeElapsed prev =? timeElapsed next)).

Definition completionData (g : Game) : CompletionData :=
  mkCompletionData "BLOCK_COMPLETION" "ww2-memory-game" true
    (Z.max (1000 - moves g * 10) 100) 1000 (timeElapsed g)
    (moves g) (timeElapsed g) difficulty.

Definition winCheck (g : Game) : Game * list (Target * CompletionData) :=
  if (matchedPairs g =? totalPairs difficulty) && gameStarted g then
    (setGameWon true g,
     [(ToWindow, completionData g); (ToParent, completionData g)])
  else (g, []).

(** The render that follows an event and the effects it triggers: [prev] is
    the state of the previous render, [next] the state with the queued
    updates applied.  [setGameWon(true)] causes one more render, in which no
    dependency of the win check has changed. *)
Definition commit (prev next : Game) : Game * list (Target * CompletionData) :=
  if depsChanged prev next then winCheck next else (next, []).

(** One event, run to completion. *)
Definition step (sys : Sys) (ev : Event) : Sys :=
  match ev with
  | Click now cardId =>
      let '(next, scheduled) := handleCardClick now cardId (game sys) in
      let '(g, msgs) := commit (game sys) next in
      mkSys g (timers sys ++ scheduled) (posted sys ++ msgs)
  | NewGame seed =>
      let '(g, msgs) := commit (game sys) (initializeGame seed (game sys)) in
      mkSys g (timers sys) (posted sys ++ msgs)
  | TimeoutFires i =>
      match nth_error (timers sys) i with
      | Some t =>
          let '(g, msgs) := commit (game sys) (runTimeout t (game sys)) in
          mkSys g (dropTimer i (timers sys)) (posted sys ++ msgs)
      | None => sys
      end
  | IntervalTick now =>
      if intervalActive (game sys) then
        let '(g, msgs) := commit (game sys) (intervalCallback now (game sys)) in
        mkSys g (timers sys) (posted sys ++ msgs)
      else sys
  end.

Definition run (sys : Sys) (evs : list Event) : Sys :=
  fold_left step evs sys.

(** The component after mounting: the mount effect has run [initializeGame]
    on the [useState] defaults; the win check of the first render finds
    [matchedPairs = 0]. *)
Definition mount (seed : nat) : Sys :=
  mkSys (initializeGame seed useState_defaults) [] [].

Inductive reachable : Sys -> Prop :=
  | reachable_mount seed : reachable (mount seed)
  | reachable_step sys ev : reachable sys -> reachable (step sys ev).

End Engine.

(** ** Timed traces

    The theorems below hold for every sequence of events.  The examples that
    exhibit a behaviour are run on traces that a browser can produce: every
    event carries the time at which it happens, time does not go back, a
    callback runs at its due time, and no event happens while an earlier
    callback is still waiting.  Sampler ticks are left out of these traces:
    in a reachable state a tick writes [timeElapsed] and nothing else. *)
Definition overdue (at_ : Z) (l : list Timeout) : bool :=
  existsb (fun t => due t <? at_) l.

Definition timelyEvent (clock : Z) (sys : Sys) (at_ : Z) (ev : Event) : bool :=
  (clock <=? at_) && negb (overdue at_ (timers sys)) &&
  match ev with
  | Click now _ => now =? at_
  | NewGame _ => true
  | TimeoutFires i =>
      match nth_error (timers sys) i with
      | Some t => (due t =? at_)
                  && forallb (fun t' => negb (due t' =? at_)) (firstn i (timers sys))
      | None => false
      end
  | IntervalTick now => (now =? at_) && intervalActive (game sys)
  end.

Fixpoint timely (shuffle : nat -> list Card -> list Card) (difficulty : string)
    (clock : Z) (sys : Sys) (trace : list (Z * Event)) : bool :=
  match trace with
  | [] => true
  | (at_, ev) :: rest =>
      timelyEvent clock sys at_ ev
      && timely shuffle difficulty at_ (step shuffle difficulty sys ev) rest
  end.

(** The symbol and name of a card, as a catalog entry. *)
Definition card_item (c : Card) : Item := mkItem (symbol c) (name c).

(** Both cards of every item, ignoring identifiers and order. *)
Definition twoOfEach (items : list Item) : list Item :=
  flat_map (fun item => [item; item]) items.

(** The cards of a deck that show symbol [s]. *)
Definition withSymbol (s : string) (deck : list Card) : list Card :=
  filter (fun c => String.eqb (symbol c) s) deck.

(** Boolean checks run on the unshuffled [gameCards] array: identifiers
    pairwise distinct; the right number of cards, every symbol on exactly two
    of them, and every card face down and unmatched. *)
Definition uniqueIds (l : list Card) : bool :=
  if list_eq_dec Z.eq_dec (nodup Z.eq_dec (map id l)) (map id l) then true else false.

Definition gameCards_ok (n : Z) (l : list Card) : bool :=
  (Z.of_nat (List.length l) =? 2 * n)
  && forallb (fun c => Nat.eqb (List.length (withSymbol (symbol c) l)) 2) l
  && uniqueIds l
  && forallb (fun c => negb (matched c) && negb (flipped c)) l.

(** The three guards of [handleCardClick], in the order of the source: the
    selection already holds two identifiers, it already holds [cardId], or
    the card found under [cardId] is matched. *)
Definition rejected (cardId : Z) (g : Game) : bool :=
  (Z.of_nat (List.length (flippedCards g)) =? 2)
  || includes cardId (flippedCards g)
  || optional_matched (findCard cardId (cards g)).

(** What the first lines of [handleCardClick] do before any guard is
    looked at. *)
Definition latchStart (now : Z) (g : Game) : Game :=
  if negb (gameStarted g) then setStartTime now (setGameStarted true g) else g.

(** The card with identifier [a] turned face down, every other card left
    alone: what the no-match callback does to the deck when its second
    identifier names no card. *)
Definition unflipOnly (a : Z) (l : list Card) : list Card :=
  map (fun card => if id card =? a then spread_flipped false card else card) l.

(** The invariant of the selection: at most two identifiers, no identifier
    twice, and no card of the deck that is named by it is matched. *)
Definition selection_ok (g : Game) : Prop :=
  (List.length (flippedCards g) <= 2)%nat
  /\ NoDup (flippedCards g)
  /\ forall x c, In x (flippedCards g) -> In c (cards g) -> id c = x ->
                 matched c = false.

(** The identifiers handed out by [initializeGame], before the shuffle. *)
Definition deckIds (difficulty : string) : list Z :=
  map id (createPairs (selectedItems difficulty)).

(** What holds of the deck and of the timer queue in every state the
    component can be in: the deck carries exactly the identifiers of
    [deckIds], and a pending match callback names two of them. *)
Definition deck_ok (difficulty : string) (sys : Sys) : Prop :=
  Permutation (deckIds difficulty) (map id (cards (game sys)))
  /\ forall t, In t (timers sys) -> branch t = MatchFound ->
        In (firstId t) (deckIds difficulty) /\ In (secondId t) (deckIds difficulty).

(** ** Example sessions

    A medium game whose decks are rotations of the unshuffled array.  The
    mounted deck holds the identifiers 0..15; 0 and 1 carry the first catalog
    item, 2 and 3 the second, and so on. *)
Definition demo_step : Sys -> Event -> Sys := step rotate_deck "medium".
Definition demo_run : Sys -> list Event -> Sys := run rotate_deck "medium".
Definition demo_mount : Sys := mount rotate_deck "medium" 3.
Definition demo_timely : Sys -> list (Z * Event) -> bool :=
  timely rotate_deck "medium" 0.

(** One card face up: the player has clicked card 0. *)
Definition one_up : Sys := demo_run demo_mount [Click 0 0].

(** The pair 0, 1 is selected, "New Game" is pressed before the match
    callback is due, and the callback then runs in the new session. *)
Definition restart_before_match : list (Z * Event) :=
  [ (0, Click 0 0); (300, Click 300 1); (600, NewGame 5);
    (1300, TimeoutFires 0) ].

Definition after_stale_match : Sys :=
  demo_run demo_mount (map snd restart_before_match).

(** The 25 events of eight abandoned sessions, all inside one second: in
    each the pair 0, 1 is selected and "New Game" pressed; in the ninth
    session one card is clicked, and then the eight match callbacks of the
    abandoned sessions run. *)
Definition abandon (t : Z) (seed : nat) : list (Z * Event) :=
  [ (t, Click t 0); (t + 1, Click (t + 1) 1); (t + 2, NewGame seed) ].

Definition eight_abandoned : list (Z * Event) :=
  abandon 0 1 ++ abandon 10 2 ++ abandon 20 3 ++ abandon 30 4
  ++ abandon 40 5 ++ abandon 50 6 ++ abandon 60 7 ++ abandon 70 8
  ++ [ (80, Click 80 2) ]
  ++ map (fun k => (1001 + 10 * k, TimeoutFires 0)) [0; 1; 2; 3; 4; 5; 6; 7].

(** A pair selected and resolved one second later. *)
Definition pair_turn (t a b : Z) : list (Z * Event) :=
  [ (t, Click t a); (t + 300, Click (t + 300) b); (t + 1300, TimeoutFires 0) ].

(** The pair 0, 1 is selected, "New Game" pressed, and the same pair selected
    again before the first callback is due: both callbacks run in the second
    session and count the pair twice.  Six more pairs then bring the count
    to eight while 14 and 15 are still face down. *)
Definition counted_twice : list (Z * Event) :=
  [ (0, Click 0 0); (300, Click 300 1); (600, NewGame 5);
    (800, Click 800 0); (1000, Click 1000 1);
    (1300, TimeoutFires 0); (2000, TimeoutFires 0) ]
  ++ pair_turn 3000 2 3 ++ pair_turn 5000 4 5 ++ pair_turn 7000 6 7
  ++ pair_turn 9000 8 9 ++ pair_turn 11000 10 11 ++ pair_turn 13000 12 13.

Definition last_pair : list (Z * Event) :=
  [ (15000, Click 15000 14); (15300, Click 15300 15) ].

(** The pair 2, 3 is selected and "New Game" pressed; in the new session 2
    and 5 are selected; the match callback of the old session runs first,
    the no-match callback of the new one after it. *)
Definition mismatch_after_restart : list (Z * Event) :=
  [ (0, Click 0 2); (300, Click 300 3); (600, NewGame 5);
    (800, Click 800 2); (1000, Click 1000 5);
    (1300, TimeoutFires 0); (2500, TimeoutFires 0) ].

(** The records posted to one of the two windows, oldest first. *)
Definition postedTo (target : Target) (sys : Sys) : list CompletionData :=
  map snd (filter (fun p => match fst p, target with
                            | ToWindow, ToWindow | ToParent, ToParent => true
                            | _, _ => false
                            end) (posted sys)).

(** The flags of the card with identifier [x], if the deck has one. *)
Definition flagsOf (x : Z) (sys : Sys) : option (bool * bool) :=
  option_map (fun c => (matched c, flipped c)) (findCard x (cards (game sys))).

(** ** What the component renders *)

(** [Number.prototype.toString] and template interpolation of an integer:
    its decimal digits, with a minus sign when negative. *)
Definition toString (n : Z) : string :=
  NilZero.string_of_int (Z.to_int n).

(** [String.prototype.padStart]: [s] itself when it has [targetLength]
    characters or more, or when [padString] is empty; otherwise [padString]
    repeated and cut to the missing length, then [s]. *)
Fixpoint repeatString (n : nat) (padString : string) : string :=
  match n with
  | O => EmptyString
  | S n' => String.append padString (repeatString n' padString)
  end.

Definition padStart (targetLength : nat) (padString : string) (s : string) : string :=
  if Nat.leb targetLength (String.length s) then s
  else if Nat.eqb (String.length padString) 0 then s
  else
    let fillLen := Nat.sub targetLength (String.length s) in
    String.append (String.substring 0 fillLen (repeatString fillLen padString)) s.

(** [Number.MAX_SAFE_INTEGER]: up to it every integer is a double. *)
Definition MAX_SAFE_INTEGER : Z := 2 ^ 53 - 1.

(** [formatTime].  The source computes on doubles; this is the same
    computation on integers, and the two agree for an integer [ms] with
    [0 <= ms <= MAX_SAFE_INTEGER], the range the properties below are stated
    for.  There [ms] is a double; [ms / 1000] is below 2^44, where doubles
    are less than 0.002 apart, so the rounded quotient is within 0.00098 of
    the true one, which is an integer or at least 0.001 away from one:
    [Math.floor] of it is [Z.div].  The same holds for [seconds / 60], and
    [seconds % 60] is exact and takes the sign of the dividend as [Z.rem]
    does.  Beyond that range the rounded quotient can reach the next integer
    and the source shows one second more than this definition. *)
Definition formatTime (ms : Z) : string :=
  let seconds := ms / 1000 in
  let minutes := seconds / 60 in
  String.append (toString minutes)
    (String.append ":" (padStart 2 "0" (toString (Z.rem seconds 60)))).

(** [getGridCols] *)
Definition getGridCols (difficulty : string) : Z :=
  if String.eqb difficulty "hard" then 6 else 4.

(** One [<button>] of the card grid, with the attributes that depend on the
    state; the style entries that are the same for every card are left out.
    [onClick] holds the identifier the button passes to [handleCardClick]. *)
Record CardButton := mkCardButton {
  key : Z;
  onClick : Z;
  disabled : bool;
  cursor : string;
  backgroundColor : string;
  transform : string;
  boxShadow : string;
  border : string;
  title : string;
  children : string
}.

Definition renderCard (flippedCards : list Z) (card : Card) : CardButton :=
  mkCardButton
    (id card)
    (id card)
    (matched card || includes (id card) flippedCards)
    (if matched card then "default" else "pointer")
    (if matched card then "#27ae60"
     else if flipped card || includes (id card) flippedCards then "#3498db"
     else "#8b4513")
    (if matched card then "scale(0.95)" else "scale(1)")
    (if matched card then "inset 0 2px 4px rgba(0,0,0,0.3)"
     else "0 4px 8px rgba(0,0,0,0.3)")
    (if matched card then "2px solid #2ecc71" else "2px solid #a0522d")
    (if flipped card || includes (id card) flippedCards || matched card
     then name card else "Click to reveal")
    (if flipped card || includes (id card) flippedCards || matched card
     then symbol card else "❓").

(** [cards.map(card => <button ...>)] *)
Definition cardGrid (g : Game) : list CardButton :=
  map (renderCard (flippedCards g)) (cards g).


(** [{gameWon && (...)}]: the four texts of the win message, when shown. *)
Definition winMessage (g : Game) : option (list string) :=
  if gameWon g then
    Some [ "🏆 VICTORY! 🏆";
           String.append "Mission Accomplished in "
             (String.append (toString (moves g)) " moves!");
           String.append "Time: " (formatTime (timeElapsed g));
           String.append "Score: "
             (String.append (toString (Z.max (1000 - moves g * 10) 100)) " points") ]
  else None.

(** What identifies a card for the whole life of the component. *)
Definition card_key (c : Card) : Z * string * string :=
  (id c, symbol c, name c).

(** Whether an event is a press of "New Game". *)
Definition isNewGame (ev : Event) : bool :=
  match ev with
  | NewGame _ => true
  | _ => false
  end.

(** On a list of card keys: two keys carry the same symbol exactly when their
    identifiers have the same half. *)
Definition pairedByHalf (keys : list (Z * string * string)) : bool :=
  forallb (fun k => forallb (fun k' =>
    Bool.eqb (String.eqb (snd (fst k)) (snd (fst k')))
             (fst (fst k) / 2 =? fst (fst k') / 2)) keys) keys.

(** The flags of a deck agree with the selection: a matched card is face
    down, and a card named by the selection is face up. *)
Definition flags_ok (g : Game) : Prop :=
  forall c, In c (cards g) ->
    (matched c = true -> flipped c = false)
    /\ (In (id c) (flippedCards g) -> flipped c = true).

(** Two cards selected, their callback pending: the player has clicked
    cards 0 and 1. *)
Definition pair_pending : Sys := demo_step one_up (Click 300 1).

(** Cards 0 and 2 selected: a mismatch waiting for its callback. *)
Definition mismatch_pending : Sys := demo_step one_up (Click 300 2).

(** The won game that [counted_twice] leads to. *)
Definition won_game : Sys := demo_run demo_mount (map snd counted_twice).

(** ** A game without a mistake *)

(** The sampler ticking at the times of [l]. *)
Definition ticks (l : list Z) : list Event := map IntervalTick l.

(** One turn of a game, with the sampler running: ticks, the click on the
    first card of the pair, ticks, the click on the second card, ticks while
    the callback waits. *)
Record Turn := mkTurn {
  before : list Z;
  click1 : Z;
  between : list Z;
  click2 : Z;
  waiting : list Z
}.

(** A game played without a mistake: for each pair in turn (turn [k] takes
    the cards 2k and 2k+1, the two that [initializeGame] makes from item
    [k]), its two cards are clicked and the callback of the pair runs, with
    sampler ticks anywhere in between. *)
Fixpoint perfectPlay (k : Z) (turns : list Turn) : list Event :=
  match turns with
  | [] => []
  | t :: rest =>
      ticks (before t) ++ Click (click1 t) (2 * k)
        :: ticks (between t) ++ Click (click2 t) (2 * k + 1)
        :: ticks (waiting t) ++ TimeoutFires 0
        :: perfectPlay (k + 1) rest
  end.

(** Everything of a state but its two clock cells, [startTime] and
    [timeElapsed]. *)
Definition shape (sys : Sys) (cs : list Card) (sel : list Z)
    (ts : list Timeout) (p m : Z) (started won : bool)
    (ps : list (Target * CompletionData)) : Prop :=
  cards (game sys) = cs /\ flippedCards (game sys) = sel /\ timers sys = ts
  /\ matchedPairs (game sys) = p /\ moves (game sys) = m
  /\ gameStarted (game sys) = started /\ gameWon (game sys) = won
  /\ posted sys = ps.

(** The updater of [setCards] in [handleCardClick], and the one in the
    match callback. *)
Definition flipCard (x : Z) (card : Card) : Card :=
  if id card =? x then spread_flipped true card else card.

Definition markPair (x1 x2 : Z) (card : Card) : Card :=
  if (id card =? x1) || (id card =? x2)
  then spread_matched_flipped true false card else card.

(** The flags of a deck in which exactly the first [k] pairs are matched
    and nothing is face up. *)
Definition firstMatched (k : Z) (cs : list Card) : Prop :=
  forall c, In c cs -> matched c = (id c <? 2 * k) /\ flipped c = false.

(** The same game with the time of every event: a tick and a click happen
    at the time they read from the clock, the callback 1000 ms after the
    second click. *)
Definition stamps (l : list Z) : list (Z * Event) :=
  map (fun now => (now, IntervalTick now)) l.

Fixpoint timedPlay (k : Z) (turns : list Turn) : list (Z * Event) :=
  match turns with
  | [] => []
  | t :: rest =>
      stamps (before t) ++ (click1 t, Click (click1 t) (2 * k))
        :: stamps (between t) ++ (click2 t, Click (click2 t) (2 * k + 1))
        :: stamps (waiting t) ++ (click2 t + 1000, TimeoutFires 0)
        :: timedPlay (k + 1) rest
  end.

(** A game of eight turns, two seconds apart, with the sampler ticking
    every 100 ms from the first click (at 5000) to the win: each turn
    clicks its second card 250 ms into the turn, between two ticks, and the
    callback runs 1000 ms later. *)
Definition every100 (from : Z) (n : nat) : list Z :=
  map (fun j => from + 100 * Z.of_nat j) (seq 0 n).

Definition sampled_turn (k : Z) : Turn :=
  let b := 5000 + 2000 * k in
  mkTurn (if k =? 0 then [] else every100 (b - 700) 8)
         (if k =? 0 then b else b + 30)
         (every100 (b + 100) 2)
         (b + 250)
         (every100 (b + 300) 10).

Definition sampled_game : list Turn :=
  map sampled_turn [0; 1; 2; 3; 4; 5; 6; 7].

(** * Properties *)

(** ** The deck *)

Lemma rotate_deck_perm (seed : nat) (l : list Card) :
  Permutation l (rotate_deck seed l).
Proof.
  unfold rotate_deck.
  rewrite <- (firstn_skipn (Nat.modulo seed (List.length l)) l) at 1.
  apply Permutation_app_comm.
Qed.

Lemma totalPairs_value (d : string) :
  totalPairs d = if String.eqb d "hard" then 12 else 8.
Proof.
  unfold totalPairs, gridSize, getGridSize.
  destruct (String.eqb_spec d "easy") as [-> | _]; [reflexivity |].
  destruct (String.eqb_spec d "medium") as [-> | _]; [reflexivity |].
  destruct (String.eqb d "hard"); reflexivity.
Qed.

Lemma totalPairs_cases (d : string) : totalPairs d = 8 \/ totalPairs d = 12.
Proof.
  rewrite totalPairs_value. destruct (String.eqb d "hard"); auto.
Qed.

Lemma filter_length_perm {A : Type} (f : A -> bool) (l l' : list A) :
  Permutation l l' -> List.length (filter f l) = List.length (filter f l').
Proof.
  induction 1 as [| x l l' _ IH | x y l | l l' l'' _ IH1 _ IH2]; simpl.
  - reflexivity.
  - destruct (f x); simpl; congruence.
  - destruct (f x), (f y); reflexivity.
  - congruence.
Qed.

Lemma uniqueIds_NoDup (l : list Card) : uniqueIds l = true -> NoDup (map id l).
Proof.
  unfold uniqueIds.
  destruct (list_eq_dec Z.eq_dec _ _) as [E | _]; [| discriminate].
  intros _. rewrite <- E. apply NoDup_nodup.
Qed.

Lemma gameCards_checked (d : string) :
  gameCards_ok (totalPairs d) (createPairs (selectedItems d)) = true
  /\ map card_item (createPairs (selectedItems d))
     = twoOfEach (firstn (Z.to_nat (totalPairs d)) WW2_ITEMS).
Proof.
  unfold selectedItems.
  destruct (totalPairs_cases d) as [-> | ->]; split; vm_compute; reflexivity.
Qed.

Lemma gameCards_facts (d : string) :
  let l := createPairs (selectedItems d) in
  Z.of_nat (List.length l) = 2 * totalPairs d
  /\ (forall c, In c l -> List.length (withSymbol (symbol c) l) = 2%nat)
  /\ NoDup (map id l)
  /\ Forall (fun c => matched c = false /\ flipped c = false) l.
Proof.
  intros l. destruct (gameCards_checked d) as [H _]. fold l in H.
  unfold gameCards_ok in H.
  apply andb_prop in H as [H H4]. apply andb_prop in H as [H H3].
  apply andb_prop in H as [H1 H2].
  repeat split.
  - now apply Z.eqb_eq.
  - intros c Hc. rewrite forallb_forall in H2.
    now apply Nat.eqb_eq, H2.
  - now apply uniqueIds_NoDup.
  - apply Forall_forall. intros c Hc.
    rewrite forallb_forall in H4. specialize (H4 c Hc).
    apply andb_prop in H4 as [Hm Hf].
    now destruct (matched c), (flipped c).
Qed.

Section Properties.

Variable shuffle : nat -> list Card -> list Card.
Hypothesis shuffle_perm : forall seed l, Permutation l (shuffle seed l).
Variable difficulty : string.

Lemma initializeGame_cards (seed : nat) (g : Game) :
  cards (initializeGame shuffle difficulty seed g)
  = shuffle seed (createPairs (selectedItems difficulty)).
Proof. reflexivity. Qed.

(** C2. For every difficulty, the deck that [initializeGame] builds has
    2 x totalPairs cards, where totalPairs is 12 for "hard" and 8 otherwise;
    its cards are, up to order, two cards for each of the first totalPairs
    catalog items; every symbol in the deck is on exactly two cards; the
    card identifiers are pairwise distinct; and every card starts with
    matched = false and flipped = false. *)
Theorem initializeGame_deck (seed : nat) (g : Game) :
  let deck := cards (initializeGame shuffle difficulty seed g) in
  let n := totalPairs difficulty in
  n = (if String.eqb difficulty "hard" then 12 else 8)
  /\ Z.of_nat (List.length deck) = 2 * n
  /\ Permutation (map card_item deck)
                 (twoOfEach (firstn (Z.to_nat n) WW2_ITEMS))
  /\ (forall c, In c deck -> List.length (withSymbol (symbol c) deck) = 2%nat)
  /\ NoDup (map id deck)
  /\ Forall (fun c => matched c = false /\ flipped c = false) deck.
Proof.
  intros deck n. subst deck n. rewrite initializeGame_cards.
  set (l := createPairs (selectedItems difficulty)).
  pose proof (shuffle_perm seed l) as P.
  destruct (gameCards_facts difficulty) as (Hlen & Hsym & Hid & Hflags).
  fold l in Hlen, Hsym, Hid, Hflags.
  split; [apply totalPairs_value |].
  split; [rewrite <- (Permutation_length P); exact Hlen |].
  split.
  { rewrite <- (proj2 (gameCards_checked difficulty)). fold l.
    apply Permutation_map, Permutation_sym, P. }
  split.
  { intros c Hc. unfold withSymbol.
    rewrite <- (filter_length_perm _ _ _ P).
    apply Hsym. apply (Permutation_in c (Permutation_sym P) Hc). }
  split.
  { apply (Permutation_NoDup (Permutation_map id P) Hid). }
  apply (Permutation_Forall P Hflags).
Qed.

End Properties.

Lemma initializeGame_deck_witness :
  let deck := cards (initializeGame rotate_deck "hard" 5 useState_defaults) in
  totalPairs "hard" = 12
  /\ Z.of_nat (List.length deck) = 2 * totalPairs "hard"
  /\ NoDup (map id deck).
Proof.
  destruct (initializeGame_deck rotate_deck rotate_deck_perm "hard" 5 useState_defaults)
    as (H1 & H2 & _ & _ & H5 & _).
  intros deck. split; [exact H1 | split; [exact H2 | exact H5]].
Defined.

(** ** The click handler *)

Lemma handleCardClick_rejected (now cardId : Z) (g : Game) :
  rejected cardId g = true ->
  handleCardClick now cardId g = (latchStart now g, []).
Proof.
  unfold rejected, handleCardClick, latchStart. intros H.
  destruct (Z.of_nat (List.length (flippedCards g)) =? 2); [reflexivity |].
  destruct (includes cardId (flippedCards g)); [reflexivity |].
  destruct (optional_matched (findCard cardId (cards g))); [reflexivity |].
  discriminate.
Qed.

Lemma handleCardClick_accepted (now cardId : Z) (g : Game) :
  rejected cardId g = false ->
  let newFlippedCards := flippedCards g ++ [cardId] in
  let g1 := setCards (map (fun card =>
              if id card =? cardId then spread_flipped true card else card))
              (setFlippedCards newFlippedCards (latchStart now g)) in
  handleCardClick now cardId g =
    if Z.of_nat (List.length newFlippedCards) =? 2 then
      (setMoves (fun prev => prev + 1) g1,
       if sameSymbol (findCard (nth 0 newFlippedCards 0) (cards g))
                     (findCard (nth 1 newFlippedCards 0) (cards g))
       then [mkTimeout (nth 0 newFlippedCards 0) (nth 1 newFlippedCards 0)
                       MatchFound 1000 (now + 1000)]
       else [mkTimeout (nth 0 newFlippedCards 0) (nth 1 newFlippedCards 0)
                       NoMatch 1500 (now + 1500)])
    else (g1, []).
Proof.
  unfold rejected, handleCardClick, latchStart. intros H.
  apply orb_false_elim in H as [H H3]. apply orb_false_elim in H as [H1 H2].
  rewrite H1, H2, H3. cbv zeta.
  destruct (Z.of_nat (List.length (flippedCards g ++ [cardId])) =? 2); [| reflexivity].
  destruct (sameSymbol _ _); reflexivity.
Qed.

Lemma depsChanged_same (g : Game) : depsChanged g g = false.
Proof.
  unfold depsChanged. now rewrite !Z.eqb_refl, Bool.eqb_reflx.
Qed.

(** The win check writes [gameWon] and nothing else. *)
Lemma commit_game (d : string) (prev next : Game) :
  let g := fst (commit d prev next) in
  cards g = cards next /\ flippedCards g = flippedCards next
  /\ matchedPairs g = matchedPairs next /\ moves g = moves next
  /\ gameStarted g = gameStarted next /\ startTime g = startTime next
  /\ timeElapsed g = timeElapsed next.
Proof.
  unfold commit, winCheck.
  destruct (depsChanged prev next); [| now simpl].
  destruct ((matchedPairs next =? totalPairs d) && gameStarted next); now simpl.
Qed.

Ltac commit_fields d prev next :=
  let H := fresh "Hc" in
  pose proof (commit_game d prev next) as H; cbv zeta in H;
  destruct (commit d prev next) as [? ?]; simpl fst in H;
  destruct H as (? & ? & ? & ? & ? & ? & ?).

Section Handler.

Variable shuffle : nat -> list Card -> list Card.
Variable difficulty : string.

Local Abbreviation step := (step shuffle difficulty).


(** C8. A [handleCardClick] call that passes the guards appends [cardId] to
    the selection; the move count goes up by one exactly when the selection
    thereby has two members, whatever the symbols of the two cards, and it
    stays as it was when the selection is left with any other size. *)
Theorem moves_count (sys : Sys) (now cardId : Z) :
  rejected cardId (game sys) = false ->
  let sys' := step sys (Click now cardId) in
  flippedCards (game sys') = flippedCards (game sys) ++ [cardId]
  /\ (moves (game sys') = moves (game sys) + 1
      <-> List.length (flippedCards (game sys')) = 2%nat)
  /\ (List.length (flippedCards (game sys')) <> 2%nat ->
      moves (game sys') = moves (game sys)).
Proof.
  intros Hacc. simpl.
  pose proof (handleCardClick_accepted now _ _ Hacc) as E. cbv zeta in E.
  rewrite E. clear E.
  destruct sys as [g ts ps]. simpl game in *.
  destruct (Z.eqb_spec (Z.of_nat (List.length (flippedCards g ++ [cardId]))) 2) as [L | L].
  - match goal with |- context [commit _ _ ?n] => commit_fields difficulty g n end.
    simpl in *.
    assert (moves g0 = moves (latchStart now g) + 1) as Hm by assumption.
    assert (moves (latchStart now g) = moves g) as Hl
      by (unfold latchStart; destruct (gameStarted g); reflexivity).
    match goal with H : flippedCards g0 = _ |- _ => rewrite H end.
    split; [reflexivity |]. split; [| intros; lia].
    split; intros; lia.
  - match goal with |- context [commit _ _ ?n] => commit_fields difficulty g n end.
    simpl in *.
    assert (moves g0 = moves (latchStart now g)) as Hm by assumption.
    assert (moves (latchStart now g) = moves g) as Hl
      by (unfold latchStart; destruct (gameStarted g); reflexivity).
    match goal with H : flippedCards g0 = _ |- _ => rewrite H end.
    split; [reflexivity |]. split; [| intros; lia].
    split; intros; lia.
Qed.

End Handler.

(** The one call left out of the guarantee for rejected calls: in the
    session that [restart_before_match] leaves behind, card 0 is matched (by
    the callback of the abandoned session) and the game is not started.  The
    button of card 0 is disabled there, so no click reaches the handler; a
    direct call [handleCardClick(0)] would be turned down by the third guard
    and would still set the started flag and the start timestamp. *)
Lemma rejected_click_changes_state :
  demo_timely demo_mount restart_before_match = true
  /\ optional_matched (findCard 0 (cards (game after_stale_match))) = true
  /\ gameStarted (game after_stale_match) = false
  /\ gameStarted (game (demo_step after_stale_match (Click 2000 0))) = true
  /\ startTime (game after_stale_match) = 0
  /\ startTime (game (demo_step after_stale_match (Click 2000 0))) = 2000
  /\ game (demo_step after_stale_match (Click 2000 0)) <> game after_stale_match.
Proof.
  repeat (split; [vm_compute; reflexivity |]).
  intros E. apply (f_equal gameStarted) in E. vm_compute in E. discriminate.
Qed.

Lemma moves_count_witness :
  rejected 1 (game one_up) = false
  /\ (moves (game (demo_step one_up (Click 300 1))) = moves (game one_up) + 1
      <-> List.length (flippedCards (game (demo_step one_up (Click 300 1)))) = 2%nat).
Proof.
  split; [reflexivity |].
  exact (proj1 (proj2 (moves_count rotate_deck "medium" one_up 300 1 eq_refl))).
Defined.

(** ** Identifiers outside the deck *)

Lemma findCard_None (cardId : Z) (l : list Card) :
  findCard cardId l = None <-> forall c, In c l -> id c <> cardId.
Proof.
  unfold findCard. split.
  - intros H c Hc E. apply (find_none _ _ H) in Hc. simpl in Hc. lia.
  - intros H. destruct (find _ l) as [c |] eqn:F; [| reflexivity].
    apply find_some in F as [Hc E]. apply Z.eqb_eq in E.
    now elim (H c Hc).
Qed.

Lemma map_flip_outside (cardId : Z) (l : list Card) :
  findCard cardId l = None ->
  map (fun card => if id card =? cardId then spread_flipped true card else card) l = l.
Proof.
  intros H. rewrite findCard_None in H.
  rewrite <- (map_id l) at 2. apply map_ext_in. intros c Hc.
  destruct (Z.eqb_spec (id c) cardId) as [E | _]; [now elim (H c Hc) | reflexivity].
Qed.

Lemma includes_false (cardId : Z) (l : list Z) :
  ~ In cardId l -> includes cardId l = false.
Proof.
  intros H. unfold includes. destruct (existsb _ l) eqn:E; [| reflexivity].
  apply existsb_exists in E as (x & Hx & Ex). apply Z.eqb_eq in Ex.
  subst x. now elim H.
Qed.

Lemma unflipOnly_outside (a b : Z) (l : list Card) :
  findCard b l = None ->
  map (fun card => if (id card =? a) || (id card =? b)
                   then spread_flipped false card else card) l
  = unflipOnly a l.
Proof.
  intros H. rewrite findCard_None in H. unfold unflipOnly.
  apply map_ext_in. intros c Hc.
  destruct (Z.eqb_spec (id c) b) as [E | _]; [now elim (H c Hc) |].
  now rewrite orb_false_r.
Qed.

Lemma unflipOnly_matched (a : Z) (l : list Card) :
  map matched (unflipOnly a l) = map matched l.
Proof.
  unfold unflipOnly. rewrite map_map. apply map_ext. intros c.
  now destruct (id c =? a).
Qed.

Lemma unflipOnly_absent (a : Z) (l : list Card) :
  findCard a l = None -> unflipOnly a l = l.
Proof.
  intros H. rewrite findCard_None in H. unfold unflipOnly.
  rewrite <- (map_id l) at 2. apply map_ext_in. intros c Hc.
  destruct (Z.eqb_spec (id c) a) as [E | _]; [now elim (H c Hc) | reflexivity].
Qed.

Section Outside.

Variable shuffle : nat -> list Card -> list Card.
Variable difficulty : string.

Local Abbreviation step := (step shuffle difficulty).

(** C10, as the code has it. A [handleCardClick] call with an identifier
    that names no card, made while the selection has fewer than two members
    and does not hold that identifier, is accepted: the identifier is
    appended and no card changes.  If it is the first member, the move count
    and the timer queue stay as they are.  If it is the second member, the
    move count goes up by one and the no-match callback is scheduled with
    delay 1500.  When that callback runs, in whatever state whose deck still
    has no such card, the selection is cleared, the matched-pair count and
    every matched flag stay as they are, and the deck changes in one place at
    most: the card of the first member, if there is one, is turned face down. *)
Theorem click_outside_deck (sys : Sys) (now cardId : Z) :
  findCard cardId (cards (game sys)) = None ->
  (List.length (flippedCards (game sys)) < 2)%nat ->
  ~ In cardId (flippedCards (game sys)) ->
  let sys1 := step sys (Click now cardId) in
  flippedCards (game sys1) = flippedCards (game sys) ++ [cardId]
  /\ cards (game sys1) = cards (game sys)
  /\ (flippedCards (game sys) = [] ->
      moves (game sys1) = moves (game sys) /\ timers sys1 = timers sys)
  /\ (forall a, flippedCards (game sys) = [a] ->
      let t := mkTimeout a cardId NoMatch 1500 (now + 1500) in
      moves (game sys1) = moves (game sys) + 1
      /\ timers sys1 = timers sys ++ [t]
      /\ forall sys' i,
           nth_error (timers sys') i = Some t ->
           findCard cardId (cards (game sys')) = None ->
           let sys2 := step sys' (TimeoutFires i) in
           flippedCards (game sys2) = []
           /\ matchedPairs (game sys2) = matchedPairs (game sys')
           /\ cards (game sys2) = unflipOnly a (cards (game sys'))
           /\ map matched (cards (game sys2)) = map matched (cards (game sys'))
           /\ (findCard a (cards (game sys')) = None ->
               cards (game sys2) = cards (game sys'))).
Proof.
  intros Hout Hlen Hnin.
  assert (rejected cardId (game sys) = false) as Hacc.
  { unfold rejected. rewrite (includes_false _ _ Hnin), Hout. simpl.
    rewrite !orb_false_r. apply Z.eqb_neq. lia. }
  simpl. pose proof (handleCardClick_accepted now _ _ Hacc) as E.
  cbv zeta in E. rewrite E. clear E.
  destruct sys as [g ts ps]. simpl game in *. simpl timers. simpl posted.
  assert (forall g', cards g' = cards g ->
            setCards (map (fun card =>
              if id card =? cardId then spread_flipped true card else card)) g'
            = g') as Hid.
  { intros g' Hc. destruct g'; unfold setCards; simpl in *. subst.
    now rewrite (map_flip_outside _ _ Hout). }
  rewrite Hid by (unfold latchStart; destruct (gameStarted g); reflexivity).
  clear Hid.
  destruct (flippedCards g) as [| a [| b rest]] eqn:Hsel; simpl in Hlen; [| | lia].
  - simpl app. simpl List.length. simpl Z.eqb. cbv iota.
    match goal with |- context [commit _ _ ?n] => commit_fields difficulty g n end.
    simpl in *. rewrite app_nil_r.
    assert (moves (latchStart now g) = moves g) as Hl
      by (unfold latchStart; destruct (gameStarted g); reflexivity).
    assert (cards (latchStart now g) = cards g) as Hk
      by (unfold latchStart; destruct (gameStarted g); reflexivity).
    repeat split; try congruence; try discriminate.
  - simpl app. simpl List.length. simpl Z.eqb. cbv iota. simpl nth.
    assert (sameSymbol (findCard a (cards g)) (findCard cardId (cards g)) = false) as Hs.
    { rewrite Hout. now destruct (findCard a (cards g)). }
    rewrite Hs.
    match goal with |- context [commit _ _ ?n] => commit_fields difficulty g n end.
    simpl in *.
    assert (moves (latchStart now g) = moves g) as Hl
      by (unfold latchStart; destruct (gameStarted g); reflexivity).
    assert (cards (latchStart now g) = cards g) as Hk
      by (unfold latchStart; destruct (gameStarted g); reflexivity).
    split; [assumption |]. split; [congruence |]. split; [discriminate |].
    intros a0 Ha. injection Ha as <-.
    split; [congruence |]. split; [reflexivity |].
    intros sys' i Hi Hout'. rewrite Hi. unfold runTimeout. simpl branch. cbv iota.
    simpl firstId. simpl secondId.
    match goal with |- context [commit _ _ ?n] => commit_fields difficulty (game sys') n end.
    simpl in *.
    assert (cards g1 = unflipOnly a (cards (game sys'))) as Hc'.
    { rewrite <- (unflipOnly_outside a cardId _ Hout'). assumption. }
    split; [assumption |]. split; [assumption |]. split; [exact Hc' |].
    split; [rewrite Hc'; apply unflipOnly_matched |].
    intros Ha. rewrite Hc'. now apply unflipOnly_absent.
Qed.

End Outside.

Lemma click_outside_deck_witness :
  findCard 99 (cards (game one_up)) = None
  /\ (List.length (flippedCards (game one_up)) < 2)%nat
  /\ ~ In 99 (flippedCards (game one_up))
  /\ flippedCards (game (demo_step one_up (Click 300 99)))
     = flippedCards (game one_up) ++ [99]
  /\ cards (game (demo_step one_up (Click 300 99))) = cards (game one_up).
Proof.
  assert (~ In 99 (flippedCards (game one_up))) as Hnin.
  { vm_compute. intros [H | []]. discriminate. }
  assert (List.length (flippedCards (game one_up)) < 2)%nat as Hlen
    by (vm_compute; lia).
  split; [reflexivity |]. split; [exact Hlen |]. split; [exact Hnin |].
  destruct (click_outside_deck rotate_deck "medium" one_up 300 99 eq_refl Hlen Hnin)
    as (H1 & H2 & _).
  split; [exact H1 | exact H2].
Defined.

(** C10, as stated, fails where it says that all cards are still unchanged
    after the delay: card 0 is face up and selected, the identifier 99 names
    no card and becomes the second member, and the callback scheduled for
    the pair turns card 0 face down again. *)
Lemma outside_click_unflips_first :
  let sys1 := demo_step one_up (Click 300 99) in
  let sys2 := demo_step sys1 (TimeoutFires 0) in
  demo_timely demo_mount
    [(0, Click 0 0); (300, Click 300 99); (1800, TimeoutFires 0)] = true
  /\ findCard 99 (cards (game one_up)) = None
  /\ flippedCards (game one_up) = [0]
  /\ cards (game sys1) = cards (game one_up)
  /\ timers sys1 = [mkTimeout 0 99 NoMatch 1500 1800]
  /\ flippedCards (game sys2) = []
  /\ option_map flipped (findCard 0 (cards (game sys1))) = Some true
  /\ option_map flipped (findCard 0 (cards (game sys2))) = Some false
  /\ cards (game sys2) <> cards (game sys1).
Proof.
  repeat (split; [vm_compute; reflexivity |]).
  intros E. apply (f_equal (fun l => option_map flipped (findCard 0 l))) in E.
  vm_compute in E. discriminate.
Qed.

(** ** Invariants of the reachable states *)

Lemma deckIds_NoDup (d : string) : NoDup (deckIds d).
Proof. apply (gameCards_facts d). Qed.

Lemma findCard_unique (c : Card) (l : list Card) :
  NoDup (map id l) -> In c l -> findCard (id c) l = Some c.
Proof.
  unfold findCard. induction l as [| c0 l IH]; simpl; [easy |].
  intros Hnd [-> | Hc].
  - now rewrite Z.eqb_refl.
  - inversion Hnd as [| ? ? Hnot Hnd']; subst.
    destruct (Z.eqb_spec (id c0) (id c)) as [E | _]; [| now apply IH].
    elim Hnot. rewrite E. now apply in_map.
Qed.

Lemma findCard_In (x : Z) (c : Card) (l : list Card) :
  findCard x l = Some c -> In c l /\ id c = x.
Proof.
  unfold findCard. intros H. apply find_some in H as [Hc E].
  split; [exact Hc | now apply Z.eqb_eq].
Qed.

Lemma map_id_preserved (f : Card -> Card) (l : list Card) :
  (forall c, id (f c) = id c) -> map id (map f l) = map id l.
Proof.
  intros H. rewrite map_map. apply map_ext. exact H.
Qed.

Lemma latchStart_fields (now : Z) (g : Game) :
  cards (latchStart now g) = cards g
  /\ flippedCards (latchStart now g) = flippedCards g
  /\ matchedPairs (latchStart now g) = matchedPairs g
  /\ moves (latchStart now g) = moves g
  /\ gameWon (latchStart now g) = gameWon g
  /\ timeElapsed (latchStart now g) = timeElapsed g.
Proof.
  unfold latchStart. destruct (gameStarted g); repeat split.
Qed.

Lemma selection_ok_ext (g g' : Game) :
  cards g' = cards g -> flippedCards g' = flippedCards g ->
  selection_ok g -> selection_ok g'.
Proof.
  unfold selection_ok. intros -> ->. exact (fun H => H).
Qed.

Lemma selection_ok_empty (g : Game) : flippedCards g = [] -> selection_ok g.
Proof.
  unfold selection_ok. intros ->. simpl.
  split; [lia |]. split; [constructor |]. intros x c [].
Qed.

(** The cards and the selection that a handler leaves behind, event by
    event, before the win check. *)
Lemma handleCardClick_selection (now cardId : Z) (g : Game) :
  NoDup (map id (cards g)) -> selection_ok g ->
  selection_ok (fst (handleCardClick now cardId g)).
Proof.
  intros Hnd Hok. destruct (rejected cardId g) eqn:R.
  - rewrite (handleCardClick_rejected _ _ _ R). simpl.
    destruct (latchStart_fields now g) as (Hc & Hf & _).
    now apply (selection_ok_ext g).
  - pose proof (handleCardClick_accepted now _ _ R) as E. cbv zeta in E.
    rewrite E. clear E.
    destruct (latchStart_fields now g) as (Hc & Hf & _).
    set (flip := fun card : Card =>
                   if id card =? cardId then spread_flipped true card else card).
    assert (selection_ok
              (setCards (map flip)
                 (setFlippedCards (flippedCards g ++ [cardId]) (latchStart now g))))
      as Hgoal.
    { unfold rejected in R.
      apply orb_false_elim in R as [R R3]. apply orb_false_elim in R as [R1 R2].
      destruct Hok as (Hlen & Hdup & Hm).
      unfold selection_ok. simpl. rewrite Hc.
      split; [| split].
      - rewrite length_app. simpl. apply Z.eqb_neq in R1. lia.
      - apply NoDup_app; [exact Hdup | repeat constructor; intros [] | ].
        intros x Hx [<- | []].
        assert (includes cardId (flippedCards g) = true) as Hin.
        { unfold includes. apply existsb_exists. exists cardId.
          split; [exact Hx | apply Z.eqb_refl]. }
        congruence.
      - intros x c' Hx Hc' Hid.
        apply in_map_iff in Hc' as (c & <- & Hcin).
        assert (id (flip c) = id c /\ matched (flip c) = matched c) as [Ei Em]
          by (unfold flip; destruct (id c =? cardId); split; reflexivity).
        rewrite Em. rewrite Ei in Hid.
        apply in_app_iff in Hx as [Hx | [<- | []]].
        + now apply (Hm x c).
        + rewrite <- Hid in R3.
          now rewrite (findCard_unique c _ Hnd Hcin) in R3. }
    destruct (Z.of_nat (List.length (flippedCards g ++ [cardId])) =? 2); simpl.
    + revert Hgoal. now apply selection_ok_ext.
    + exact Hgoal.
Qed.

Lemma runTimeout_fields (t : Timeout) (g : Game) :
  flippedCards (runTimeout t g) = []
  /\ map id (cards (runTimeout t g)) = map id (cards g)
  /\ gameStarted (runTimeout t g) = gameStarted g
  /\ gameWon (runTimeout t g) = gameWon g
  /\ moves (runTimeout t g) = moves g.
Proof.
  unfold runTimeout, matchCallback, noMatchCallback.
  destruct (branch t); simpl; repeat split;
    apply map_id_preserved; intros c;
    destruct ((id c =? firstId t) || (id c =? secondId t)); reflexivity.
Qed.

Lemma handleCardClick_ids (now cardId : Z) (g : Game) :
  map id (cards (fst (handleCardClick now cardId g))) = map id (cards g).
Proof.
  destruct (latchStart_fields now g) as (Hc & _).
  destruct (rejected cardId g) eqn:R.
  - rewrite (handleCardClick_rejected _ _ _ R). simpl. now rewrite Hc.
  - pose proof (handleCardClick_accepted now _ _ R) as E. cbv zeta in E.
    rewrite E. clear E.
    destruct (Z.of_nat (List.length (flippedCards g ++ [cardId])) =? 2);
      simpl; rewrite Hc; apply map_id_preserved; intros c;
      destruct (id c =? cardId); reflexivity.
Qed.

(** A match callback is scheduled only for two identifiers found in the
    deck. *)
Lemma handleCardClick_timers (now cardId : Z) (g : Game) (t : Timeout) :
  In t (snd (handleCardClick now cardId g)) -> branch t = MatchFound ->
  In (firstId t) (map id (cards g)) /\ In (secondId t) (map id (cards g)).
Proof.
  destruct (rejected cardId g) eqn:R.
  - rewrite (handleCardClick_rejected _ _ _ R). intros [].
  - pose proof (handleCardClick_accepted now _ _ R) as E. cbv zeta in E.
    rewrite E. clear E.
    destruct (Z.of_nat (List.length (flippedCards g ++ [cardId])) =? 2);
      [| intros []].
    simpl snd.
    destruct (sameSymbol _ _) eqn:S; intros [<- | []]; simpl; [| discriminate].
    intros _. unfold sameSymbol in S.
    destruct (findCard (nth 0 (flippedCards g ++ [cardId]) 0) (cards g))
      as [c1 |] eqn:F1; [| discriminate].
    destruct (findCard (nth 1 (flippedCards g ++ [cardId]) 0) (cards g))
      as [c2 |] eqn:F2; [| discriminate].
    apply findCard_In in F1 as [H1 <-]. apply findCard_In in F2 as [H2 <-].
    split; now apply in_map.
Qed.

Lemma dropTimer_In (i : nat) (l : list Timeout) (t : Timeout) :
  In t (dropTimer i l) -> In t l.
Proof.
  unfold dropTimer. intros H. apply in_app_iff in H as [H | H].
  - rewrite <- (firstn_skipn i l). apply in_app_iff. now left.
  - rewrite <- (firstn_skipn (S i) l). apply in_app_iff. now right.
Qed.

Section Invariants.

Variable shuffle : nat -> list Card -> list Card.
Hypothesis shuffle_perm : forall seed l, Permutation l (shuffle seed l).
Variable difficulty : string.

Local Abbreviation step := (step shuffle difficulty).
Local Abbreviation mount := (mount shuffle difficulty).
Local Abbreviation reachable := (reachable shuffle difficulty).

Lemma deck_ok_NoDup (sys : Sys) :
  deck_ok difficulty sys -> NoDup (map id (cards (game sys))).
Proof.
  intros [P _]. apply (Permutation_NoDup P), deckIds_NoDup.
Qed.

Lemma deck_ok_mount (seed : nat) : deck_ok difficulty (mount seed).
Proof.
  split; [| intros t []].
  unfold deckIds. simpl. apply Permutation_map, shuffle_perm.
Qed.

Lemma deck_ok_step (sys : Sys) (ev : Event) :
  deck_ok difficulty sys -> deck_ok difficulty (step sys ev).
Proof.
  intros [P T]. destruct sys as [g ts ps]. simpl in P, T.
  destruct ev as [now cardId | seed | i | now]; simpl.
  - pose proof (handleCardClick_ids now cardId g) as Hids.
    pose proof (handleCardClick_timers now cardId g) as Htim.
    destruct (handleCardClick now cardId g) as [next scheduled].
    simpl in Hids, Htim.
    commit_fields difficulty g next.
    split; simpl.
    + congruence.
    + intros t Ht Hb. apply in_app_iff in Ht as [Ht | Ht]; [now apply T |].
      destruct (Htim t Ht Hb) as [Hfst Hsnd].
      split; eapply Permutation_in; try (apply Permutation_sym; exact P);
        assumption.
  - commit_fields difficulty g (initializeGame shuffle difficulty seed g).
    split; simpl; [| exact T].
    match goal with H : cards _ = _ |- _ => rewrite H end.
    unfold deckIds. simpl. apply Permutation_map, shuffle_perm.
  - destruct (nth_error ts i) as [t |] eqn:Hi; [| now split].
    destruct (runTimeout_fields t g) as (_ & Hids & _).
    commit_fields difficulty g (runTimeout t g).
    split; simpl.
    + match goal with H : cards _ = _ |- _ => rewrite H end.
      rewrite Hids. exact P.
    + intros t' Ht'. apply T. now apply dropTimer_In in Ht'.
  - destruct (intervalActive g); [| now split].
    commit_fields difficulty g (intervalCallback now g).
    split; simpl; [| exact T].
    match goal with H : cards _ = _ |- _ => rewrite H end. exact P.
Qed.

Lemma reachable_deck_ok (sys : Sys) : reachable sys -> deck_ok difficulty sys.
Proof.
  induction 1 as [seed | sys ev _ IH].
  - apply deck_ok_mount.
  - now apply deck_ok_step.
Qed.

(** Every event keeps the selection invariant, from any state whose deck has
    pairwise distinct identifiers. *)
Lemma selection_ok_step (sys : Sys) (ev : Event) :
  NoDup (map id (cards (game sys))) ->
  selection_ok (game sys) -> selection_ok (game (step sys ev)).
Proof.
  intros Hnd Hok. destruct sys as [g ts ps]. simpl in Hnd, Hok.
  destruct ev as [now cardId | seed | i | now]; simpl.
  - pose proof (handleCardClick_selection now cardId g Hnd Hok) as Hsel.
    destruct (handleCardClick now cardId g) as [next scheduled].
    simpl in Hsel. commit_fields difficulty g next. simpl.
    now apply (selection_ok_ext next).
  - commit_fields difficulty g (initializeGame shuffle difficulty seed g).
    simpl. apply selection_ok_empty.
    match goal with H : flippedCards _ = _ |- _ => rewrite H end. reflexivity.
  - destruct (nth_error ts i) as [t |]; [| exact Hok].
    destruct (runTimeout_fields t g) as (Hf & _).
    commit_fields difficulty g (runTimeout t g).
    simpl. apply selection_ok_empty.
    match goal with H : flippedCards _ = _ |- _ => rewrite H end. exact Hf.
  - destruct (intervalActive g); [| exact Hok].
    commit_fields difficulty g (intervalCallback now g).
    simpl. apply (selection_ok_ext g); assumption.
Qed.

(** C9. In every reachable state the selection has at most two members, no
    identifier twice, and names no matched card; and every event (a click,
    either resolution callback, a restart, a sampler tick) leads again to
    such a state. *)
Theorem selection_invariant (sys : Sys) :
  reachable sys ->
  selection_ok (game sys) /\ forall ev, selection_ok (game (step sys ev)).
Proof.
  intros Hreach.
  assert (selection_ok (game sys)) as Hok.
  { induction Hreach as [seed | sys ev Hreach IH].
    - now apply selection_ok_empty.
    - apply selection_ok_step; [| exact IH].
      apply deck_ok_NoDup, reachable_deck_ok, Hreach. }
  split; [exact Hok |].
  intros ev. apply selection_ok_step; [| exact Hok].
  apply deck_ok_NoDup, reachable_deck_ok, Hreach.
Qed.

End Invariants.

Lemma one_up_reachable : reachable rotate_deck "medium" one_up.
Proof. apply reachable_step, reachable_mount. Qed.

Lemma selection_invariant_witness :
  reachable rotate_deck "medium" one_up
  /\ selection_ok (game one_up)
  /\ selection_ok (game (demo_step one_up (Click 300 1))).
Proof.
  split; [exact one_up_reachable |].
  destruct (selection_invariant rotate_deck rotate_deck_perm "medium" one_up
              one_up_reachable) as [H1 H2].
  split; [exact H1 | exact (H2 (Click 300 1))].
Defined.

(** ** Resolution of a pair *)

Lemma includes_single (x a : Z) : includes x [a] = false -> a <> x.
Proof.
  unfold includes. simpl. rewrite orb_false_r. now intros H%Z.eqb_neq.
Qed.

Section Resolution.

Variable shuffle : nat -> list Card -> list Card.
Hypothesis shuffle_perm : forall seed l, Permutation l (shuffle seed l).
Variable difficulty : string.

Local Abbreviation step := (step shuffle difficulty).
Local Abbreviation reachable := (reachable shuffle difficulty).

(** C6. When an accepted click completes a selection [a; cardId] of two
    cards of the deck with the same symbol, the match callback is scheduled
    with delay 1000.  In whatever reachable state that callback runs, the
    deck afterwards holds a card for each of the two identifiers, every such
    card has matched = true and flipped = false, the matched-pair count is
    one more than before the callback, and the selection is empty. *)
Theorem match_resolution (sys : Sys) (now cardId a : Z) (ca cb : Card) :
  flippedCards (game sys) = [a] ->
  rejected cardId (game sys) = false ->
  findCard a (cards (game sys)) = Some ca ->
  findCard cardId (cards (game sys)) = Some cb ->
  symbol ca = symbol cb ->
  let sys1 := step sys (Click now cardId) in
  let t := mkTimeout a cardId MatchFound 1000 (now + 1000) in
  a <> cardId
  /\ flippedCards (game sys1) = [a; cardId]
  /\ timers sys1 = timers sys ++ [t]
  /\ forall sys' i,
       reachable sys' -> nth_error (timers sys') i = Some t ->
       let sys2 := step sys' (TimeoutFires i) in
       (exists c1 c2, In c1 (cards (game sys2)) /\ In c2 (cards (game sys2))
                      /\ id c1 = a /\ id c2 = cardId)
       /\ (forall c, In c (cards (game sys2)) -> id c = a \/ id c = cardId ->
                     matched c = true /\ flipped c = false)
       /\ matchedPairs (game sys2) = matchedPairs (game sys') + 1
       /\ flippedCards (game sys2) = []
       /\ timers sys2 = dropTimer i (timers sys').
Proof.
  intros Hsel Hacc Fa Fb Hsym.
  assert (a <> cardId) as Hneq.
  { unfold rejected in Hacc. rewrite Hsel in Hacc.
    apply orb_false_elim in Hacc as [Hacc _].
    apply orb_false_elim in Hacc as [_ Hacc]. now apply includes_single. }
  split; [exact Hneq |].
  simpl. pose proof (handleCardClick_accepted now _ _ Hacc) as E.
  cbv zeta in E. rewrite E. clear E.
  destruct sys as [g ts ps]. simpl game in *. simpl timers. simpl posted.
  rewrite Hsel. simpl app. simpl List.length. simpl Z.eqb. cbv iota. simpl nth.
  rewrite Fa, Fb. unfold sameSymbol. rewrite Hsym, String.eqb_refl.
  match goal with |- context [commit _ _ ?n] => commit_fields difficulty g n end.
  simpl in *.
  split; [assumption |]. split; [reflexivity |].
  intros sys' i Hreach Hi. rewrite Hi.
  unfold runTimeout. simpl branch. cbv iota. simpl firstId. simpl secondId.
  destruct (reachable_deck_ok shuffle shuffle_perm difficulty sys' Hreach)
    as [P T].
  destruct (T _ (nth_error_In _ _ Hi) eq_refl) as [Ia Ib].
  simpl in Ia, Ib.
  apply (Permutation_in _ P) in Ia. apply (Permutation_in _ P) in Ib.
  apply in_map_iff in Ia as (c1 & Ec1 & Hc1).
  apply in_map_iff in Ib as (c2 & Ec2 & Hc2).
  match goal with |- context [commit _ _ ?n] =>
    commit_fields difficulty (game sys') n end.
  simpl in *.
  set (f := fun card : Card =>
              if (id card =? a) || (id card =? cardId)
              then spread_matched_flipped true false card else card) in *.
  assert (forall c, id (f c) = id c) as Hfid
    by (intros c; unfold f; destruct ((id c =? a) || (id c =? cardId)); reflexivity).
  assert (cards g1 = map f (cards (game sys'))) as Hcards by assumption.
  split; [| split; [| split; [| split]]].
  - exists (f c1), (f c2). rewrite Hcards, !Hfid.
    repeat split; try assumption; now apply in_map.
  - intros c Hc Hid. rewrite Hcards in Hc.
    apply in_map_iff in Hc as (c0 & <- & _). rewrite Hfid in Hid.
    unfold f.
    assert ((id c0 =? a) || (id c0 =? cardId) = true) as ->.
    { apply orb_true_iff. destruct Hid as [Hid | Hid]; [left | right];
        now apply Z.eqb_eq. }
    split; reflexivity.
  - assumption.
  - assumption.
  - reflexivity.
Qed.

End Resolution.

Lemma match_resolution_witness :
  let sys1 := demo_step one_up (Click 300 1) in
  let sys2 := demo_step sys1 (TimeoutFires 0) in
  flippedCards (game one_up) = [0]
  /\ rejected 1 (game one_up) = false
  /\ findCard 0 (cards (game one_up)) = Some (mkCard 0 "✈️" "Fighter Plane" false true)
  /\ findCard 1 (cards (game one_up)) = Some (mkCard 1 "✈️" "Fighter Plane" false false)
  /\ timers sys1 = [mkTimeout 0 1 MatchFound 1000 1300]
  /\ matchedPairs (game sys2) = matchedPairs (game sys1) + 1
  /\ flippedCards (game sys2) = [].
Proof.
  intros sys1 sys2.
  do 4 (split; [reflexivity |]).
  destruct (match_resolution rotate_deck rotate_deck_perm "medium" one_up 300 1 0
              (mkCard 0 "✈️" "Fighter Plane" false true)
              (mkCard 1 "✈️" "Fighter Plane" false false)
              eq_refl eq_refl eq_refl eq_refl eq_refl)
    as (_ & _ & Ht & Hfire).
  split; [exact Ht |].
  destruct (Hfire sys1 0%nat
              (reachable_step _ _ _ _ one_up_reachable) eq_refl)
    as (_ & _ & Hm & Hf & _).
  split; [exact Hm | exact Hf].
Defined.

(** ** Callbacks that outlive their session *)

(** C4 fails on the code: nothing cancels a pending callback.  The pair
    0, 1 is selected, "New Game" is pressed 300 ms later, and the new session
    is fresh (no card matched, count 0, one callback still queued).  When the
    callback runs, cards 0 and 1 of the new deck become matched and the
    matched-pair count of the new session becomes 1. *)
Theorem stale_callback_changes_new_session :
  let fresh := demo_run demo_mount
                 [Click 0 0; Click 300 1; NewGame 5] in
  let later := demo_step fresh (TimeoutFires 0) in
  demo_timely demo_mount restart_before_match = true
  /\ later = after_stale_match
  /\ timers fresh = [mkTimeout 0 1 MatchFound 1000 1300]
  /\ forallb (fun c => negb (matched c) && negb (flipped c)) (cards (game fresh)) = true
  /\ matchedPairs (game fresh) = 0
  /\ gameStarted (game fresh) = false
  /\ flagsOf 0 later = Some (true, false)
  /\ flagsOf 1 later = Some (true, false)
  /\ matchedPairs (game later) = 1
  /\ gameStarted (game later) = false.
Proof.
  cbv zeta. repeat (split; [vm_compute; reflexivity |]).
  vm_compute; reflexivity.
Qed.

(** C7 fails on the code, through the same missing cancellation: cards 2 and
    5 of the new session have different symbols and are both unmatched when
    selected; the match callback of the abandoned session marks card 2
    matched before the no-match callback of the pair runs, so after the
    mismatch resolution card 2 has flipped = false and matched = true. *)
Theorem mismatch_leaves_matched_card :
  let selected := demo_run demo_mount
                    [Click 0 2; Click 300 3; NewGame 5; Click 800 2; Click 1000 5] in
  let resolved := demo_run demo_mount (map snd mismatch_after_restart) in
  demo_timely demo_mount mismatch_after_restart = true
  /\ flippedCards (game selected) = [2; 5]
  /\ option_map symbol (findCard 2 (cards (game selected)))
     <> option_map symbol (findCard 5 (cards (game selected)))
  /\ flagsOf 2 selected = Some (false, true)
  /\ flagsOf 5 selected = Some (false, true)
  /\ timers selected = [mkTimeout 2 3 MatchFound 1000 1300;
                        mkTimeout 2 5 NoMatch 1500 2500]
  /\ flagsOf 2 resolved = Some (true, false)
  /\ flagsOf 5 resolved = Some (false, false)
  /\ flippedCards (game resolved) = []
  /\ timers resolved = [].
Proof.
  cbv zeta.
  do 2 (split; [vm_compute; reflexivity |]).
  split; [vm_compute; discriminate |].
  repeat (split; [vm_compute; reflexivity |]).
  vm_compute; reflexivity.
Qed.

(** C5 fails on the code, through the same missing cancellation: eight
    match callbacks of abandoned sessions run in a ninth session in which
    one card has been clicked and no pair selected; the count reaches eight
    and the record is posted with moves = 0. *)
Theorem completion_with_zero_moves :
  let sys := demo_run demo_mount (map snd eight_abandoned) in
  demo_timely demo_mount eight_abandoned = true
  /\ moves (game sys) = 0
  /\ gameWon (game sys) = true
  /\ map data_moves (postedTo ToParent sys) = [0]
  /\ map score (postedTo ToParent sys) = [1000].
Proof.
  cbv zeta. repeat (split; [vm_compute; reflexivity |]).
  vm_compute; reflexivity.
Qed.

(** C1 fails on the code: the win check runs again whenever the move count
    changes and does not look at [gameWon].  After [counted_twice] the game
    is won with cards 14 and 15 still unmatched and one record posted to
    each window; selecting that last pair raises the move count and the
    record is posted a second time in the same game. *)
Theorem completion_posted_twice :
  let won := demo_run demo_mount (map snd counted_twice) in
  let sys := demo_run won (map snd last_pair) in
  demo_timely demo_mount (counted_twice ++ last_pair) = true
  /\ gameWon (game won) = true
  /\ matchedPairs (game won) = totalPairs "medium"
  /\ map data_moves (postedTo ToParent won) = [7]
  /\ flagsOf 14 won = Some (false, false)
  /\ flagsOf 15 won = Some (false, false)
  /\ gameWon (game sys) = true
  /\ map data_moves (postedTo ToParent sys) = [7; 8]
  /\ map data_moves (postedTo ToWindow sys) = [7; 8].
Proof.
  cbv zeta. repeat (split; [vm_compute; reflexivity |]).
  vm_compute; reflexivity.
Qed.

(** ** What does hold of the win check and of the posted records *)

Lemma commit_posts (d : string) (prev next : Game) :
  (snd (commit d prev next) = []
   /\ gameWon (fst (commit d prev next)) = gameWon next)
  \/ (snd (commit d prev next)
      = [(ToWindow, completionData d next); (ToParent, completionData d next)]
      /\ gameWon (fst (commit d prev next)) = true
      /\ matchedPairs next = totalPairs d
      /\ gameStarted next = true
      /\ depsChanged prev next = true).
Proof.
  unfold commit, winCheck.
  destruct (depsChanged prev next); [| now left].
  destruct (Z.eqb_spec (matchedPairs next) (totalPairs d)) as [E | _];
    [| now left].
  destruct (gameStarted next); simpl; [right | left]; repeat split; assumption.
Qed.

Lemma depsChanged_false (prev next : Game) :
  depsChanged prev next = false ->
  matchedPairs prev = matchedPairs next /\ gameStarted prev = gameStarted next.
Proof.
  unfold depsChanged. intros H. apply negb_false_iff in H.
  apply andb_prop in H as [H _]. apply andb_prop in H as [H _].
  apply andb_prop in H as [H1 H2].
  split; [now apply Z.eqb_eq | now apply Bool.eqb_prop].
Qed.

Lemma completionData_fields (d : string) (g : Game) :
  let r := completionData d g in
  type r = "BLOCK_COMPLETION" /\ blockId r = "ww2-memory-game"
  /\ completed r = true /\ maxScore r = 1000
  /\ data_moves r = moves g
  /\ score r = Z.max (1000 - data_moves r * 10) 100
  /\ (0 <= moves g -> 100 <= score r <= 1000).
Proof.
  cbv beta iota zeta delta
    [completionData type blockId completed maxScore data_moves score].
  repeat split; try reflexivity; lia.
Qed.

Lemma score_monotone (d : string) (g g' : Game) :
  moves g <= moves g' ->
  score (completionData d g') <= score (completionData d g).
Proof.
  cbv beta iota delta [completionData score]. lia.
Qed.

Section WinCheck.

Variable shuffle : nat -> list Card -> list Card.
Variable difficulty : string.

Local Abbreviation step := (step shuffle difficulty).
Local Abbreviation reachable := (reachable shuffle difficulty).

(** Every event is a handler followed by [commit]; the handler leaves
    [gameWon] alone unless it is [initializeGame], and moves the move count
    by at most one step up or back to zero. *)
Lemma step_commit (sys : Sys) (ev : Event) :
  exists next,
    game (step sys ev) = fst (commit difficulty (game sys) next)
    /\ posted (step sys ev) = posted sys ++ snd (commit difficulty (game sys) next)
    /\ (gameWon next = gameWon (game sys)
        \/ (matchedPairs next = 0 /\ gameStarted next = false
            /\ gameWon next = false))
    /\ (moves next = moves (game sys) \/ moves next = moves (game sys) + 1
        \/ moves next = 0).
Proof.
  destruct sys as [g ts ps].
  assert (exists next : Game,
            mkSys g ts ps = mkSys (fst (commit difficulty g next)) ts
                                  (ps ++ snd (commit difficulty g next))
            /\ game (mkSys g ts ps) = fst (commit difficulty g next)
            /\ ps = ps ++ snd (commit difficulty g next)
            /\ gameWon next = gameWon g /\ moves next = moves g) as Hsame.
  { exists g. unfold commit. rewrite depsChanged_same. simpl.
    now rewrite app_nil_r. }
  destruct ev as [now cardId | seed | i | now]; simpl.
  - exists (fst (handleCardClick now cardId g)).
    destruct (handleCardClick now cardId g) as [next scheduled] eqn:E.
    simpl fst.
    assert (gameWon next = gameWon g
            /\ (moves next = moves g \/ moves next = moves g + 1)) as [Hw Hm].
    { destruct (latchStart_fields now g) as (_ & _ & _ & Hlm & Hlw & _).
      destruct (rejected cardId g) eqn:R.
      - rewrite (handleCardClick_rejected _ _ _ R) in E.
        injection E as <- _. split; [assumption | now left].
      - pose proof (handleCardClick_accepted now _ _ R) as E'. cbv zeta in E'.
        rewrite E' in E. clear E'.
        destruct (Z.of_nat (List.length (flippedCards g ++ [cardId])) =? 2);
          injection E as <- _; simpl; split; try assumption;
          [right | left]; lia. }
    destruct (commit difficulty g next) as [g' msgs]. simpl.
    repeat split; [now left | lia].
  - exists (initializeGame shuffle difficulty seed g).
    destruct (commit difficulty g _) as [g' msgs]. simpl.
    repeat split; [right; now repeat split | now right; right].
  - destruct (nth_error ts i) as [t |].
    + exists (runTimeout t g).
      destruct (runTimeout_fields t g) as (_ & _ & _ & Hw & Hm).
      destruct (commit difficulty g _) as [g' msgs]. simpl.
      repeat split; [now left | now left].
    + destruct Hsame as (next & _ & H1 & H2 & H3 & H4).
      exists next. repeat split; [exact H1 | exact H2 | now left | now left].
  - destruct (intervalActive g).
    + exists (intervalCallback now g).
      destruct (commit difficulty g _) as [g' msgs]. simpl.
      repeat split; [now left | now left].
    + destruct Hsame as (next & _ & H1 & H2 & H3 & H4).
      exists next. repeat split; [exact H1 | exact H2 | now left | now left].
Qed.

(** In every reachable state a game whose count has reached [totalPairs]
    after it started is won, and the move count is not negative. *)
Lemma reachable_won (sys : Sys) :
  reachable sys ->
  (matchedPairs (game sys) = totalPairs difficulty ->
   gameStarted (game sys) = true -> gameWon (game sys) = true)
  /\ 0 <= moves (game sys).
Proof.
  induction 1 as [seed | sys ev _ [IHw IHm]].
  - simpl. split; [discriminate | lia].
  - destruct (step_commit sys ev) as (next & Hg & _ & Hw & Hm).
    rewrite Hg.
    pose proof (commit_game difficulty (game sys) next) as F. cbv zeta in F.
    destruct F as (_ & _ & Fp & Fm & Fs & _).
    split; [| rewrite Fm; lia].
    rewrite Fp, Fs. intros Hp Hs.
    destruct (commit_posts difficulty (game sys) next)
      as [[_ Hsame] | (_ & Hwon & _)]; [| exact Hwon].
    rewrite Hsame.
    destruct Hw as [Hw | (Hz & Hf & _)]; [| congruence].
    rewrite Hw. unfold commit in Hsame.
    destruct (depsChanged (game sys) next) eqn:D.
    + unfold winCheck in Hsame.
      rewrite Hs, andb_true_r in Hsame.
      destruct (Z.eqb_spec (matchedPairs next) (totalPairs difficulty));
        [simpl in Hsame; congruence | contradiction].
    + apply depsChanged_false in D as [Dp Ds]. apply IHw; congruence.
Qed.

(** X18. From a reachable state that is not won, an event enters the Won
    state exactly when, after it, the count equals [totalPairs] and the game
    has started. *)
Lemma won_entered (sys : Sys) (ev : Event) :
  reachable sys -> gameWon (game sys) = false ->
  (gameWon (game (step sys ev)) = true
   <-> matchedPairs (game (step sys ev)) = totalPairs difficulty
       /\ gameStarted (game (step sys ev)) = true).
Proof.
  intros Hreach Hnot. split.
  - destruct (step_commit sys ev) as (next & Hg & _ & Hw & _).
    rewrite Hg.
    pose proof (commit_game difficulty (game sys) next) as F. cbv zeta in F.
    destruct F as (_ & _ & Fp & _ & Fs & _). rewrite Fp, Fs.
    destruct (commit_posts difficulty (game sys) next)
      as [[_ Hsame] | (_ & _ & Hp & Hs & _)]; [| now split].
    rewrite Hsame. intros Hwon.
    destruct Hw as [Hw | (_ & _ & Hw)]; congruence.
  - intros [Hp Hs].
    apply (reachable_won (step sys ev)); [now apply reachable_step | | ];
      assumption.
Qed.

(** A record is posted only by an event after which the count equals
    [totalPairs] and the game has started, and the game is then won; in
    particular not by "New Game" and not while pairs are missing. *)
Lemma posted_only_when_won (sys : Sys) (ev : Event) :
  posted (step sys ev) <> posted sys ->
  matchedPairs (game (step sys ev)) = totalPairs difficulty
  /\ gameStarted (game (step sys ev)) = true
  /\ gameWon (game (step sys ev)) = true.
Proof.
  destruct (step_commit sys ev) as (next & Hg & Hp & _).
  rewrite Hg, Hp.
  pose proof (commit_game difficulty (game sys) next) as F. cbv zeta in F.
  destruct F as (_ & _ & Fp & _ & Fs & _). rewrite Fp, Fs.
  destruct (commit_posts difficulty (game sys) next)
    as [[Hnil _] | (_ & Hwon & Hm & Hs & _)].
  - rewrite Hnil, app_nil_r. now intros H.
  - intros _. repeat split; assumption.
Qed.

Lemma NewGame_posts_nothing (sys : Sys) (seed : nat) :
  posted (step sys (NewGame seed)) = posted sys.
Proof.
  destruct (list_eq_dec
              (fun p q : Target * CompletionData =>
                 ltac:(repeat decide equality; apply string_dec))
              (posted (step sys (NewGame seed))) (posted sys)) as [E | N];
    [exact E |].
  apply posted_only_when_won in N as (_ & Hs & _).
  destruct (step_commit sys (NewGame seed)) as (next & Hg & _).
  simpl in Hs.
  pose proof (commit_game difficulty (game sys)
                (initializeGame shuffle difficulty seed (game sys))) as F.
  cbv zeta in F. destruct F as (_ & _ & _ & _ & Fs & _).
  destruct (commit difficulty (game sys) _) as [g' msgs]. simpl in *.
  congruence.
Qed.

(** X19. Every record posted in a reachable state has the fixed fields of
    the source, the score max(1000 - 10 x moves, 100), a score between 100
    and 1000, and a move count that is not negative. *)
Lemma posted_records (sys : Sys) (target : Target) (r : CompletionData) :
  reachable sys -> In (target, r) (posted sys) ->
  type r = "BLOCK_COMPLETION" /\ blockId r = "ww2-memory-game"
  /\ completed r = true /\ maxScore r = 1000
  /\ score r = Z.max (1000 - data_moves r * 10) 100
  /\ 100 <= score r <= 1000
  /\ 0 <= data_moves r.
Proof.
  intros Hreach. revert target r.
  induction Hreach as [seed | sys ev Hreach IH]; intros target r Hin.
  - destruct Hin.
  - destruct (step_commit sys ev) as (next & Hg & Hp & _ & Hm).
    rewrite Hp in Hin. apply in_app_iff in Hin as [Hin | Hin];
      [now apply (IH target) |].
    destruct (commit_posts difficulty (game sys) next)
      as [[Hnil _] | (Hmsgs & _)]; [rewrite Hnil in Hin; destruct Hin |].
    rewrite Hmsgs in Hin.
    assert (r = completionData difficulty next) as ->
      by (destruct Hin as [E | [E | []]]; now injection E).
    destruct (reachable_won sys Hreach) as [_ Hnonneg].
    destruct (completionData_fields difficulty next)
      as (H1 & H2 & H3 & H4 & H5 & H6 & H7).
    assert (0 <= moves next) as Hn by lia.
    repeat split; try assumption; try (apply H7; exact Hn).
Qed.

End WinCheck.

(** ** What does hold of a mismatch and of the sampler *)

Section Mismatch.

Variable shuffle : nat -> list Card -> list Card.
Variable difficulty : string.

Local Abbreviation step := (step shuffle difficulty).
Local Abbreviation reachable := (reachable shuffle difficulty).

(** X20. When an accepted click completes a selection [a; cardId] of two cards
    with different symbols, the no-match callback is scheduled with delay
    1500.  Whenever it runs it turns every card with one of the two
    identifiers face down, leaves every matched flag and the matched-pair
    count as it finds them, and empties the selection. *)
Lemma mismatch_resolution (sys : Sys) (now cardId a : Z) (ca cb : Card) :
  flippedCards (game sys) = [a] ->
  rejected cardId (game sys) = false ->
  findCard a (cards (game sys)) = Some ca ->
  findCard cardId (cards (game sys)) = Some cb ->
  symbol ca <> symbol cb ->
  let sys1 := step sys (Click now cardId) in
  let t := mkTimeout a cardId NoMatch 1500 (now + 1500) in
  flippedCards (game sys1) = [a; cardId]
  /\ moves (game sys1) = moves (game sys) + 1
  /\ timers sys1 = timers sys ++ [t]
  /\ forall sys' i,
       nth_error (timers sys') i = Some t ->
       let sys2 := step sys' (TimeoutFires i) in
       (forall c, In c (cards (game sys2)) -> id c = a \/ id c = cardId ->
                  flipped c = false)
       /\ map matched (cards (game sys2)) = map matched (cards (game sys'))
       /\ matchedPairs (game sys2) = matchedPairs (game sys')
       /\ flippedCards (game sys2) = [].
Proof.
  intros Hsel Hacc Fa Fb Hsym.
  simpl. pose proof (handleCardClick_accepted now _ _ Hacc) as E.
  cbv zeta in E. rewrite E. clear E.
  destruct sys as [g ts ps]. simpl game in *. simpl timers. simpl posted.
  rewrite Hsel. simpl app. simpl List.length. simpl Z.eqb. cbv iota. simpl nth.
  rewrite Fa, Fb. unfold sameSymbol.
  destruct (String.eqb_spec (symbol ca) (symbol cb)) as [E | _];
    [contradiction |].
  destruct (latchStart_fields now g) as (_ & _ & _ & Hlm & _).
  match goal with |- context [commit _ _ ?n] => commit_fields difficulty g n end.
  simpl in *.
  split; [assumption |]. split; [congruence |]. split; [reflexivity |].
  intros sys' i Hi. rewrite Hi.
  unfold runTimeout. simpl branch. cbv iota. simpl firstId. simpl secondId.
  match goal with |- context [commit _ _ ?n] =>
    commit_fields difficulty (game sys') n end.
  simpl in *.
  set (f := fun card : Card =>
              if (id card =? a) || (id card =? cardId)
              then spread_flipped false card else card) in *.
  assert (cards g1 = map f (cards (game sys'))) as Hcards by assumption.
  rewrite Hcards.
  split; [| split; [| split]]; try assumption.
  - intros c Hc Hid. apply in_map_iff in Hc as (c0 & <- & _).
    assert (id (f c0) = id c0) as Ei
      by (unfold f; destruct ((id c0 =? a) || (id c0 =? cardId)); reflexivity).
    rewrite Ei in Hid. unfold f.
    assert ((id c0 =? a) || (id c0 =? cardId) = true) as ->.
    { apply orb_true_iff. destruct Hid as [Hid | Hid]; [left | right];
        now apply Z.eqb_eq. }
    reflexivity.
  - rewrite map_map. apply map_ext. intros c. unfold f.
    now destruct ((id c =? a) || (id c =? cardId)).
Qed.

(** X21. A sampler tick in a reachable state writes [timeElapsed] and nothing
    else: the interval exists only while the game is not won, and then the
    win check that the tick triggers finds the count short of [totalPairs]. *)
Lemma tick_samples_only (sys : Sys) (now : Z) :
  reachable sys ->
  step sys (IntervalTick now) = sys
  \/ step sys (IntervalTick now)
     = mkSys (setTimeElapsed (now - startTime (game sys)) (game sys))
             (timers sys) (posted sys).
Proof.
  intros Hreach. destruct (reachable_won _ _ sys Hreach) as [Hwon _].
  destruct sys as [g ts ps]. simpl in *.
  unfold intervalActive.
  destruct (gameStarted g) eqn:Hs; simpl; [| now left].
  destruct (gameWon g) eqn:Hw; simpl; [now left |].
  right. unfold commit, winCheck, intervalCallback. simpl.
  destruct (Z.eqb_spec (matchedPairs g) (totalPairs difficulty)) as [E | _].
  { specialize (Hwon E eq_refl). discriminate. }
  destruct (depsChanged g _); simpl; rewrite ?Hs, app_nil_r; reflexivity.
Qed.

End Mismatch.

(** ** The elapsed-time display *)

Lemma toString_parse (n : Z) :
  NilZero.int_of_string (toString n) = Some (Z.to_int n).
Proof.
  unfold toString. apply NilZero.isi; destruct n as [| p | p]; simpl;
    try discriminate; intros [= E]; now apply Unsigned.to_uint_nonnil in E.
Qed.

Lemma toString_inj (n m : Z) : toString n = toString m -> n = m.
Proof.
  intros E. apply DecimalZ.to_int_inj.
  pose proof (toString_parse n) as Hn. rewrite E, toString_parse in Hn.
  now injection Hn.
Qed.

Lemma string_length_append (s t : string) :
  String.length (String.append s t) = (String.length s + String.length t)%nat.
Proof.
  induction s as [| c s IH]; simpl; [reflexivity | now rewrite IH].
Qed.

(** Two concatenations with right parts of the same length agree part by
    part. *)
Lemma append_inj_suffix (s1 t1 s2 t2 : string) :
  String.length s2 = String.length t2 ->
  String.append s1 s2 = String.append t1 t2 -> s1 = t1 /\ s2 = t2.
Proof.
  revert t1. induction s1 as [| c s1 IH]; intros [| d t1] L E; simpl in E.
  - now split.
  - apply (f_equal String.length) in E. simpl in E.
    rewrite string_length_append in E. lia.
  - apply (f_equal String.length) in E. simpl in E.
    rewrite string_length_append in E. lia.
  - injection E as -> E. destruct (IH t1 L E) as [-> ->]. now split.
Qed.

(** The seconds field, for each of the sixty values it can take. *)
Lemma seconds_field (s : Z) :
  0 <= s < 60 ->
  padStart 2 "0" (toString s)
  = String.append (toString (s / 10)) (toString (s mod 10)).
Proof.
  intros H.
  assert (forallb (fun k =>
            String.eqb (padStart 2 "0" (toString (Z.of_nat k)))
              (String.append (toString (Z.of_nat k / 10))
                             (toString (Z.of_nat k mod 10))))
            (seq 0 60) = true) as Hall by (vm_compute; reflexivity).
  rewrite forallb_forall in Hall.
  specialize (Hall (Z.to_nat s)).
  rewrite Z2Nat.id in Hall by lia.
  apply String.eqb_eq, Hall, in_seq. lia.
Qed.

Lemma digit_length (d : Z) : 0 <= d < 10 -> String.length (toString d) = 1%nat.
Proof.
  intros H.
  assert (forallb (fun k => Nat.eqb (String.length (toString (Z.of_nat k))) 1)
            (seq 0 10) = true) as Hall by (vm_compute; reflexivity).
  rewrite forallb_forall in Hall.
  specialize (Hall (Z.to_nat d)).
  rewrite Z2Nat.id in Hall by lia.
  apply Nat.eqb_eq, Hall, in_seq. lia.
Qed.

(** Kept as a lemma of its own for the proofs below. *)
Lemma formatTime_digits (ms : Z) :
  0 <= ms ->
  let s := (ms / 1000) mod 60 in
  formatTime ms
  = String.append (toString (ms / 60000))
      (String.append ":" (String.append (toString (s / 10)) (toString (s mod 10))))
  /\ 0 <= s / 10 <= 5 /\ 0 <= s mod 10 <= 9.
Proof.
  intros Hms s.
  assert (0 <= ms / 1000) as Hsec by (apply Z.div_pos; lia).
  assert (0 <= s < 60) as Hs by (apply Z.mod_pos_bound; lia).
  assert (formatTime ms
          = String.append (toString (ms / 60000))
              (String.append ":"
                 (String.append (toString (s / 10)) (toString (s mod 10)))))
    as E.
  { unfold formatTime. cbv zeta.
    rewrite Z.div_div by lia. change (1000 * 60) with 60000.
    rewrite Z.rem_mod_nonneg by lia. fold s.
    now rewrite (seconds_field s Hs). }
  assert (0 <= s / 10 <= 5) as Ht.
  { split; [apply Z.div_pos; lia |].
    apply Z.lt_succ_r. apply Z.div_lt_upper_bound; lia. }
  assert (0 <= s mod 10 <= 9) as Hu
    by (pose proof (Z.mod_pos_bound s 10); lia).
  split; [exact E |]. split; [exact Ht | exact Hu].
Qed.

(** X1. For an elapsed time between 0 and [MAX_SAFE_INTEGER], [formatTime]
    shows the whole minutes in decimal, a colon, and the remaining seconds as
    exactly two digits, tens then units, so the seconds field runs from 00
    to 59. *)
Theorem formatTime_shape (ms : Z) :
  0 <= ms <= MAX_SAFE_INTEGER ->
  let s := (ms / 1000) mod 60 in
  formatTime ms
  = String.append (toString (ms / 60000))
      (String.append ":" (String.append (toString (s / 10)) (toString (s mod 10))))
  /\ 0 <= s / 10 <= 5 /\ 0 <= s mod 10 <= 9
  /\ String.length (formatTime ms)
     = (String.length (toString (ms / 60000)) + 3)%nat.
Proof.
  intros [Hms _] s. destruct (formatTime_digits ms Hms) as (E & Ht & Hu).
  fold s in E, Ht, Hu.
  split; [exact E |]. split; [exact Ht |]. split; [exact Hu |].
  rewrite E, !string_length_append.
  rewrite (digit_length (s / 10)) by lia.
  rewrite (digit_length (s mod 10)) by lia.
  simpl. lia.
Qed.

Lemma formatTime_shape_witness :
  0 <= 125000 <= MAX_SAFE_INTEGER
  /\ formatTime 125000 = String.append (toString 2) (String.append ":" "05").
Proof.
  assert (0 <= 125000 <= MAX_SAFE_INTEGER) as H by (unfold MAX_SAFE_INTEGER; lia).
  split; [exact H |].
  exact (proj1 (formatTime_shape 125000 H)).
Defined.

(** X2. Two elapsed times between 0 and [MAX_SAFE_INTEGER] are displayed
    alike exactly when they have the same number of whole seconds: the
    display loses the milliseconds and nothing else. *)
Theorem formatTime_same_display (ms ms' : Z) :
  0 <= ms <= MAX_SAFE_INTEGER -> 0 <= ms' <= MAX_SAFE_INTEGER ->
  (formatTime ms = formatTime ms' <-> ms / 1000 = ms' / 1000).
Proof.
  intros [H _] [H' _]. split.
  - intros E.
    destruct (formatTime_digits ms H) as (E1 & T1 & U1).
    destruct (formatTime_digits ms' H') as (E2 & T2 & U2).
    cbv zeta in *. rewrite E1, E2 in E. clear E1 E2.
    set (s := (ms / 1000) mod 60) in *. set (s' := (ms' / 1000) mod 60) in *.
    apply append_inj_suffix in E as [Em Es].
    2:{ simpl. rewrite !string_length_append, !digit_length; lia. }
    injection Es as Es.
    apply append_inj_suffix in Es as [Et Eu].
    2:{ rewrite !digit_length; lia. }
    apply toString_inj in Em, Et, Eu.
    assert (ms / 1000 / 60 = ms' / 1000 / 60) as Eq
      by (rewrite !Z.div_div by lia; exact Em).
    assert (s = s') as Er
      by (rewrite (Z.div_mod s 10), (Z.div_mod s' 10) by lia; congruence).
    rewrite (Z.div_mod (ms / 1000) 60), (Z.div_mod (ms' / 1000) 60) by lia.
    fold s s'. congruence.
  - intros E. unfold formatTime. cbv zeta. now rewrite E.
Qed.

Lemma formatTime_same_display_witness :
  0 <= 125000 <= MAX_SAFE_INTEGER /\ 0 <= 125999 <= MAX_SAFE_INTEGER
  /\ formatTime 125000 = formatTime 125999.
Proof.
  assert (0 <= 125000 <= MAX_SAFE_INTEGER) as H by (unfold MAX_SAFE_INTEGER; lia).
  assert (0 <= 125999 <= MAX_SAFE_INTEGER) as H' by (unfold MAX_SAFE_INTEGER; lia).
  split; [exact H |]. split; [exact H' |].
  apply (formatTime_same_display 125000 125999 H H'). reflexivity.
Defined.

(** ** The deck through a session *)

Lemma handleCardClick_state (now cardId : Z) (g : Game) :
  let g' := fst (handleCardClick now cardId g) in
  (rejected cardId g = true ->
   cards g' = cards g /\ flippedCards g' = flippedCards g)
  /\ (rejected cardId g = false ->
      cards g' = map (fun card =>
                   if id card =? cardId then spread_flipped true card else card)
                   (cards g)
      /\ flippedCards g' = flippedCards g ++ [cardId])
  /\ matchedPairs g' = matchedPairs g
  /\ moves g <= moves g' <= moves g + 1
  /\ gameStarted g' = true
  /\ gameWon g' = gameWon g
  /\ timeElapsed g' = timeElapsed g.
Proof.
  destruct (latchStart_fields now g) as (Hc & Hf & Hp & Hm & Hw & He).
  assert (gameStarted (latchStart now g) = true) as Hs
    by (unfold latchStart; destruct (gameStarted g) eqn:E; [exact E | reflexivity]).
  destruct (rejected cardId g) eqn:R; cbv zeta.
  - rewrite (handleCardClick_rejected _ _ _ R). simpl.
    repeat split; try assumption; try discriminate; lia.
  - pose proof (handleCardClick_accepted now _ _ R) as E. cbv zeta in E.
    rewrite E. clear E.
    destruct (Z.of_nat (List.length (flippedCards g ++ [cardId])) =? 2); simpl;
      rewrite Hc; repeat split; try assumption; try discriminate; lia.
Qed.

Lemma runTimeout_state (t : Timeout) (g : Game) :
  let g' := runTimeout t g in
  cards g' = map (fun card =>
               if (id card =? firstId t) || (id card =? secondId t)
               then match branch t with
                    | MatchFound => spread_matched_flipped true false card
                    | NoMatch => spread_flipped false card
                    end
               else card) (cards g)
  /\ matchedPairs g <= matchedPairs g'
  /\ timeElapsed g' = timeElapsed g.
Proof.
  unfold runTimeout, matchCallback, noMatchCallback.
  destruct (branch t); simpl; repeat split; lia.
Qed.

Lemma map_card_key (f : Card -> Card) (l : list Card) :
  (forall c, card_key (f c) = card_key c) ->
  map card_key (map f l) = map card_key l.
Proof.
  intros H. rewrite map_map. apply map_ext. exact H.
Qed.

Lemma handleCardClick_keys (now cardId : Z) (g : Game) :
  map card_key (cards (fst (handleCardClick now cardId g)))
  = map card_key (cards g).
Proof.
  destruct (handleCardClick_state now cardId g) as (Hr & Ha & _).
  destruct (rejected cardId g).
  - now rewrite (proj1 (Hr eq_refl)).
  - rewrite (proj1 (Ha eq_refl)). apply map_card_key. intros c.
    now destruct (id c =? cardId).
Qed.

Lemma runTimeout_keys (t : Timeout) (g : Game) :
  map card_key (cards (runTimeout t g)) = map card_key (cards g).
Proof.
  rewrite (proj1 (runTimeout_state t g)). apply map_card_key. intros c.
  destruct ((id c =? firstId t) || (id c =? secondId t)); [| reflexivity].
  now destruct (branch t).
Qed.

Section Session.

Variable shuffle : nat -> list Card -> list Card.
Hypothesis shuffle_perm : forall seed l, Permutation l (shuffle seed l).
Variable difficulty : string.

Local Abbreviation step := (step shuffle difficulty).
Local Abbreviation mount := (mount shuffle difficulty).
Local Abbreviation reachable := (reachable shuffle difficulty).

Lemma reachable_run (sys : Sys) (evs : list Event) :
  reachable sys -> reachable (run shuffle difficulty sys evs).
Proof.
  revert sys. induction evs as [| ev evs IH]; intros sys H; simpl.
  - exact H.
  - apply IH. now apply reachable_step.
Qed.

(** Kept as a lemma of its own for the proofs below. *)
Lemma step_keeps_deck (sys : Sys) (ev : Event) :
  isNewGame ev = false ->
  let g := game sys in
  let g' := game (step sys ev) in
  map card_key (cards g') = map card_key (cards g)
  /\ Forall2 (fun c c' => matched c = true -> matched c' = true)
             (cards g) (cards g')
  /\ moves g <= moves g'
  /\ matchedPairs g <= matchedPairs g'.
Proof.
  intros Hev. destruct sys as [g ts ps]. cbv zeta. simpl game at 1 3 5 7.
  assert (forall f : Card -> Card,
            (forall c, matched c = true -> matched (f c) = true) ->
            Forall2 (fun c c' => matched c = true -> matched c' = true)
                    (cards g) (map f (cards g))) as Hmono.
  { intros f Hf. induction (cards g) as [| c l IH]; simpl; constructor; auto. }
  destruct ev as [now cardId | seed | i | now]; simpl; [| discriminate | |].
  - pose proof (handleCardClick_keys now cardId g) as Hk.
    destruct (handleCardClick_state now cardId g)
      as (Hr & Ha & Hp & Hm & _).
    destruct (handleCardClick now cardId g) as [next scheduled].
    simpl fst in *. commit_fields difficulty g next. simpl game.
    repeat match goal with H : _ g0 = _ next |- _ => rewrite H end.
    split; [exact Hk |]. split; [| lia].
    destruct (rejected cardId g).
    + rewrite (proj1 (Hr eq_refl)). rewrite <- (map_id (cards g)) at 2.
      apply Hmono. auto.
    + rewrite (proj1 (Ha eq_refl)). apply Hmono. intros c.
      now destruct (id c =? cardId).
  - destruct (nth_error ts i) as [t |].
    + pose proof (runTimeout_keys t g) as Hk.
      destruct (runTimeout_state t g) as (Hc & Hp & _).
      destruct (runTimeout_fields t g) as (_ & _ & _ & _ & Hm).
      commit_fields difficulty g (runTimeout t g). simpl game.
      repeat match goal with H : _ g0 = _ (runTimeout t g) |- _ => rewrite H end.
      split; [exact Hk |]. split; [| lia].
      rewrite Hc. apply Hmono. intros c.
      destruct ((id c =? firstId t) || (id c =? secondId t)); [| auto].
      now destruct (branch t).
    + simpl. split; [reflexivity |]. split; [| lia].
      rewrite <- (map_id (cards g)) at 2. apply Hmono. auto.
  - destruct (intervalActive g).
    + commit_fields difficulty g (intervalCallback now g). simpl game.
      repeat match goal with H : _ g0 = _ (intervalCallback now g) |- _ =>
                               rewrite H end.
      simpl. split; [reflexivity |]. split; [| lia].
      rewrite <- (map_id (cards g)) at 2. apply Hmono. auto.
    + simpl. split; [reflexivity |]. split; [| lia].
      rewrite <- (map_id (cards g)) at 2. apply Hmono. auto.
Qed.

(** X3. Between two presses of "New Game" the deck is never reordered and no
    card changes its identifier, symbol or name; a matched card stays
    matched; and the move count and the matched-pair count never go down. *)
Theorem session_keeps_deck (sys : Sys) (ev : Event) :
  isNewGame ev = false ->
  let g := game sys in
  let g' := game (step sys ev) in
  map card_key (cards g') = map card_key (cards g)
  /\ Forall2 (fun c c' => matched c = true -> matched c' = true)
             (cards g) (cards g')
  /\ moves g <= moves g'
  /\ matchedPairs g <= matchedPairs g'.
Proof. apply step_keeps_deck. Qed.

(** The cards of every reachable deck are those of the unshuffled array, up
    to order and flags. *)
Lemma reachable_keys (sys : Sys) :
  reachable sys ->
  Permutation (map card_key (createPairs (selectedItems difficulty)))
              (map card_key (cards (game sys))).
Proof.
  induction 1 as [seed | sys ev _ IH].
  - simpl. apply Permutation_map, shuffle_perm.
  - destruct (isNewGame ev) eqn:E.
    + destruct ev as [| seed | |]; try discriminate.
      destruct sys as [g ts ps]. simpl.
      commit_fields difficulty g (initializeGame shuffle difficulty seed g).
      simpl game.
      match goal with H : cards _ = _ |- _ => rewrite H end.
      simpl. apply Permutation_map, shuffle_perm.
    + now rewrite (proj1 (step_keeps_deck sys ev E)).
Qed.

End Session.

Lemma session_keeps_deck_witness :
  isNewGame (Click 300 1) = false
  /\ map card_key (cards (game (demo_step one_up (Click 300 1))))
     = map card_key (cards (game one_up))
  /\ moves (game one_up) <= moves (game (demo_step one_up (Click 300 1))).
Proof.
  split; [reflexivity |].
  destruct (session_keeps_deck rotate_deck "medium" one_up (Click 300 1) eq_refl)
    as (H1 & _ & H3 & _).
  split; [exact H1 | exact H3].
Defined.

Lemma gameCards_paired (d : string) :
  pairedByHalf (map card_key (createPairs (selectedItems d))) = true
  /\ deckIds d = map Z.of_nat (seq 0 (Z.to_nat (2 * totalPairs d))).
Proof.
  unfold deckIds, selectedItems.
  destruct (totalPairs_cases d) as [-> | ->]; split; vm_compute; reflexivity.
Qed.

Section Board.

Variable shuffle : nat -> list Card -> list Card.
Hypothesis shuffle_perm : forall seed l, Permutation l (shuffle seed l).
Variable difficulty : string.

Local Abbreviation step := (step shuffle difficulty).
Local Abbreviation mount := (mount shuffle difficulty).
Local Abbreviation reachable := (reachable shuffle difficulty).

(** Kept as a lemma of its own for the proofs below. *)
Lemma reachable_pairs (sys : Sys) (c c' : Card) :
  reachable sys ->
  In c (cards (game sys)) -> In c' (cards (game sys)) ->
  (symbol c = symbol c' <-> id c / 2 = id c' / 2).
Proof.
  intros Hreach Hc Hc'.
  pose proof (reachable_keys shuffle shuffle_perm difficulty sys Hreach) as P.
  destruct (gameCards_paired difficulty) as [Hb _].
  unfold pairedByHalf in Hb. rewrite forallb_forall in Hb.
  assert (forall x, In x (cards (game sys)) ->
            In (card_key x)
               (map card_key (createPairs (selectedItems difficulty)))) as Hin.
  { intros x Hx. apply (Permutation_in _ (Permutation_sym P)).
    now apply in_map. }
  specialize (Hb _ (Hin c Hc)). rewrite forallb_forall in Hb.
  specialize (Hb _ (Hin c' Hc')). simpl in Hb.
  apply Bool.eqb_prop in Hb.
  rewrite <- String.eqb_eq, <- Z.eqb_eq, Hb. reflexivity.
Qed.

(** X4. In every reachable state the identifiers give the pairs away: two
    cards of the deck carry the same symbol exactly when their identifiers
    have the same half (0 and 1, 2 and 3, ...), wherever the shuffle has put
    them. *)
Theorem pairs_by_identifier (sys : Sys) (c c' : Card) :
  reachable sys ->
  In c (cards (game sys)) -> In c' (cards (game sys)) ->
  (symbol c = symbol c' <-> id c / 2 = id c' / 2).
Proof. apply reachable_pairs. Qed.

Lemma flags_ok_step (sys : Sys) (ev : Event) :
  NoDup (map id (cards (game sys))) ->
  flags_ok (game sys) -> flags_ok (game (step sys ev)).
Proof.
  intros Hnd Hok. destruct sys as [g ts ps]. simpl in Hnd, Hok.
  assert (forall g', cards g' = cards g -> flippedCards g' = flippedCards g ->
            flags_ok g') as Hsame.
  { intros g' E1 E2 c. rewrite E1, E2. apply Hok. }
  destruct ev as [now cardId | seed | i | now]; simpl.
  - destruct (handleCardClick_state now cardId g) as (Hr & Ha & _).
    destruct (handleCardClick now cardId g) as [next scheduled].
    simpl fst in *. commit_fields difficulty g next. simpl game.
    destruct (rejected cardId g) eqn:R.
    + destruct (Hr eq_refl) as [E1 E2]. apply Hsame; congruence.
    + destruct (Ha eq_refl) as [E1 E2].
      intros c'. 
      match goal with H : cards g0 = _ |- _ => rewrite H end.
      match goal with H : flippedCards g0 = _ |- _ => rewrite H end.
      rewrite E1, E2. intros Hc'.
      apply in_map_iff in Hc' as (c & <- & Hc).
      destruct (Hok c Hc) as [Hm Hf].
      unfold rejected in R. apply orb_false_elim in R as [_ R3].
      destruct (Z.eqb_spec (id c) cardId) as [E | N]; simpl.
      * rewrite <- E, (findCard_unique c _ Hnd Hc) in R3. simpl in R3.
        split; [congruence | reflexivity].
      * split; [exact Hm |]. intros Hin.
        apply in_app_iff in Hin as [Hin | [Hin | []]]; [now apply Hf |].
        now elim N.
  - commit_fields difficulty g (initializeGame shuffle difficulty seed g).
    simpl game. intros c.
    match goal with H : cards g0 = _ |- _ => rewrite H end.
    match goal with H : flippedCards g0 = _ |- _ => rewrite H end.
    simpl. intros Hc.
    apply (Permutation_in _ (Permutation_sym (shuffle_perm seed _))) in Hc.
    destruct (gameCards_facts difficulty) as (_ & _ & _ & Hflags).
    rewrite Forall_forall in Hflags. destruct (Hflags c Hc) as [_ Hf].
    split; [intros _; exact Hf | intros []].
  - destruct (nth_error ts i) as [t |]; [| exact Hok].
    destruct (runTimeout_state t g) as (Hc & _).
    destruct (runTimeout_fields t g) as (Hf & _).
    commit_fields difficulty g (runTimeout t g). simpl game. intros c'.
    match goal with H : cards g0 = _ |- _ => rewrite H end.
    match goal with H : flippedCards g0 = _ |- _ => rewrite H end.
    rewrite Hc, Hf. intros Hc'.
    apply in_map_iff in Hc' as (c & <- & Hcin).
    split; [| intros []].
    destruct ((id c =? firstId t) || (id c =? secondId t));
      [now destruct (branch t) | apply (Hok c Hcin)].
  - destruct (intervalActive g); [| exact Hok].
    commit_fields difficulty g (intervalCallback now g). simpl game.
    apply Hsame; assumption.
Qed.

(** Kept as a lemma of its own for the proofs below. *)
Lemma reachable_flags (sys : Sys) (c : Card) :
  reachable sys -> In c (cards (game sys)) ->
  (matched c = true -> flipped c = false)
  /\ (In (id c) (flippedCards (game sys)) -> flipped c = true).
Proof.
  intros Hreach. revert c.
  induction Hreach as [seed | sys ev Hreach IH].
  - change (flags_ok (game (mount seed))).
    intros c Hc. simpl in Hc.
    apply (Permutation_in _ (Permutation_sym (shuffle_perm seed _))) in Hc.
    destruct (gameCards_facts difficulty) as (_ & _ & _ & Hflags).
    rewrite Forall_forall in Hflags. destruct (Hflags c Hc) as [_ Hf].
    split; [intros _; exact Hf | intros []].
  - apply flags_ok_step; [| exact IH].
    apply (deck_ok_NoDup difficulty),
      (reachable_deck_ok shuffle shuffle_perm difficulty), Hreach.
Qed.

(** X5. In every reachable state a matched card is face down
    ([flipped = false]) and every card named by the selection is face up. *)
Theorem flags_invariant (sys : Sys) (c : Card) :
  reachable sys -> In c (cards (game sys)) ->
  (matched c = true -> flipped c = false)
  /\ (In (id c) (flippedCards (game sys)) -> flipped c = true).
Proof. apply reachable_flags. Qed.

(** X6. In every reachable state the [disabled] attribute of a card button
    is exactly the answer of the second and third guard of [handleCardClick]
    for its click: the button is disabled when the card is already selected
    or already matched, and enabled otherwise, whatever the size of the
    selection.  Hence the click of a button is turned down exactly when two
    cards are selected or the button is disabled: the click of an enabled
    button is turned down only while two cards wait for their callback. *)
Theorem enabled_button_click (sys : Sys) (b : CardButton) :
  reachable sys -> In b (cardGrid (game sys)) ->
  disabled b
  = includes (onClick b) (flippedCards (game sys))
    || optional_matched (findCard (onClick b) (cards (game sys)))
  /\ rejected (onClick b) (game sys)
     = (Z.of_nat (List.length (flippedCards (game sys))) =? 2) || disabled b.
Proof.
  intros Hreach Hb. unfold cardGrid in Hb.
  apply in_map_iff in Hb as (c & <- & Hc). simpl.
  assert (findCard (id c) (cards (game sys)) = Some c) as F.
  { apply findCard_unique; [| exact Hc].
    apply (deck_ok_NoDup difficulty),
      (reachable_deck_ok shuffle shuffle_perm difficulty), Hreach. }
  unfold rejected. rewrite F. simpl.
  destruct (Z.of_nat (List.length (flippedCards (game sys))) =? 2);
    destruct (matched c), (includes (id c) (flippedCards (game sys)));
    split; reflexivity.
Qed.

(** X7. In every reachable state a card button has one of three looks: a
    matched card is green, disabled and shows its symbol; an unmatched
    face-up card is blue and shows its symbol; an unmatched face-down card is
    brown, shows the question mark and the title "Click to reveal", and is
    enabled. *)
Theorem card_looks (sys : Sys) (c : Card) :
  reachable sys -> In c (cards (game sys)) ->
  let b := renderCard (flippedCards (game sys)) c in
  (matched c = true /\ flipped c = false
   /\ backgroundColor b = "#27ae60" /\ children b = symbol c
   /\ title b = name c /\ disabled b = true)
  \/ (matched c = false /\ flipped c = true
      /\ backgroundColor b = "#3498db" /\ children b = symbol c
      /\ title b = name c)
  \/ (matched c = false /\ flipped c = false
      /\ backgroundColor b = "#8b4513" /\ children b = "❓"
      /\ title b = "Click to reveal" /\ disabled b = false).
Proof.
  intros Hreach Hc. destruct (reachable_flags sys c Hreach Hc) as [Hm Hf].
  simpl.
  destruct (matched c) eqn:M.
  - left. rewrite (Hm eq_refl). rewrite !orb_true_r. now repeat split.
  - destruct (flipped c) eqn:F.
    + right; left. now repeat split.
    + right; right.
      assert (includes (id c) (flippedCards (game sys)) = false) as I.
      { destruct (includes _ _) eqn:I; [| reflexivity].
        unfold includes in I. apply existsb_exists in I as (x & Hx & E).
        apply Z.eqb_eq in E. subst x. specialize (Hf Hx). discriminate. }
      rewrite I. now repeat split.
Qed.

(** X8. The grid has as many columns as [getGridSize] says, and in every
    reachable state the card buttons fill exactly four rows of it. *)
Theorem grid_is_full (sys : Sys) :
  reachable sys ->
  getGridCols difficulty = gridSize difficulty
  /\ Z.of_nat (List.length (cardGrid (game sys))) = getGridCols difficulty * 4
  /\ Z.of_nat (List.length (cardGrid (game sys))) = 2 * totalPairs difficulty.
Proof.
  intros Hreach.
  destruct (reachable_deck_ok shuffle shuffle_perm difficulty sys Hreach)
    as [P _].
  apply Permutation_length in P. rewrite length_map in P.
  destruct (gameCards_paired difficulty) as [_ Hids].
  rewrite Hids, length_map, length_seq in P.
  unfold cardGrid. rewrite length_map, <- P.
  assert (getGridCols difficulty = gridSize difficulty) as Hg.
  { unfold getGridCols, gridSize, getGridSize.
    destruct (String.eqb_spec difficulty "easy") as [-> | _]; [reflexivity |].
    destruct (String.eqb_spec difficulty "medium") as [-> | _]; [reflexivity |].
    reflexivity. }
  split; [exact Hg |].
  rewrite Hg. unfold totalPairs.
  destruct (totalPairs_cases difficulty) as [E | E]; unfold totalPairs in E;
    rewrite Z2Nat.id by lia; split; try reflexivity;
    unfold gridSize, getGridSize in *;
    destruct (String.eqb difficulty "easy"), (String.eqb difficulty "medium"),
      (String.eqb difficulty "hard"); vm_compute in E |- *; congruence.
Qed.

End Board.

Ltac in_deck := vm_compute; repeat (first [left; reflexivity | right]).

Lemma card0_in_one_up :
  In (mkCard 0 "✈️" "Fighter Plane" false true) (cards (game one_up)).
Proof. in_deck. Qed.

Lemma card1_in_one_up :
  In (mkCard 1 "✈️" "Fighter Plane" false false) (cards (game one_up)).
Proof. in_deck. Qed.

Lemma pairs_by_identifier_witness :
  reachable rotate_deck "medium" one_up
  /\ In (mkCard 0 "✈️" "Fighter Plane" false true) (cards (game one_up))
  /\ In (mkCard 1 "✈️" "Fighter Plane" false false) (cards (game one_up))
  /\ ("✈️" = "✈️" <-> 0 / 2 = 1 / 2).
Proof.
  split; [exact one_up_reachable |].
  split; [exact card0_in_one_up |]. split; [exact card1_in_one_up |].
  exact (pairs_by_identifier rotate_deck rotate_deck_perm "medium" one_up
           (mkCard 0 "✈️" "Fighter Plane" false true)
           (mkCard 1 "✈️" "Fighter Plane" false false)
           one_up_reachable card0_in_one_up card1_in_one_up).
Defined.

Lemma flags_invariant_witness :
  reachable rotate_deck "medium" one_up
  /\ In (mkCard 0 "✈️" "Fighter Plane" false true) (cards (game one_up))
  /\ (In 0 (flippedCards (game one_up)) ->
      flipped (mkCard 0 "✈️" "Fighter Plane" false true) = true).
Proof.
  split; [exact one_up_reachable |]. split; [exact card0_in_one_up |].
  exact (proj2 (flags_invariant rotate_deck rotate_deck_perm "medium" one_up
                  (mkCard 0 "✈️" "Fighter Plane" false true)
                  one_up_reachable card0_in_one_up)).
Defined.

Lemma button1_in_one_up :
  In (renderCard [0] (mkCard 1 "✈️" "Fighter Plane" false false))
     (cardGrid (game one_up)).
Proof. in_deck. Qed.

Lemma enabled_button_click_witness :
  reachable rotate_deck "medium" one_up
  /\ In (renderCard [0] (mkCard 1 "✈️" "Fighter Plane" false false))
        (cardGrid (game one_up))
  /\ disabled (renderCard [0] (mkCard 1 "✈️" "Fighter Plane" false false))
     = includes 1 (flippedCards (game one_up))
       || optional_matched (findCard 1 (cards (game one_up)))
  /\ rejected 1 (game one_up)
     = (Z.of_nat (List.length (flippedCards (game one_up))) =? 2)
       || disabled (renderCard [0] (mkCard 1 "✈️" "Fighter Plane" false false)).
Proof.
  split; [exact one_up_reachable |]. split; [exact button1_in_one_up |].
  exact (enabled_button_click rotate_deck rotate_deck_perm "medium" one_up
           (renderCard [0] (mkCard 1 "✈️" "Fighter Plane" false false))
           one_up_reachable button1_in_one_up).
Defined.

Lemma card_looks_witness :
  reachable rotate_deck "medium" one_up
  /\ In (mkCard 1 "✈️" "Fighter Plane" false false) (cards (game one_up))
  /\ children (renderCard (flippedCards (game one_up))
                 (mkCard 1 "✈️" "Fighter Plane" false false)) = "❓".
Proof.
  split; [exact one_up_reachable |]. split; [exact card1_in_one_up |].
  destruct (card_looks rotate_deck rotate_deck_perm "medium" one_up
              (mkCard 1 "✈️" "Fighter Plane" false false)
              one_up_reachable card1_in_one_up)
    as [(_ & _ & _ & _ & _ & H) | [(_ & H & _) | (_ & _ & _ & H & _)]].
  - discriminate H.
  - discriminate H.
  - exact H.
Defined.

Lemma grid_is_full_witness :
  reachable rotate_deck "medium" one_up
  /\ Z.of_nat (List.length (cardGrid (game one_up))) = getGridCols "medium" * 4.
Proof.
  split; [exact one_up_reachable |].
  exact (proj1 (proj2 (grid_is_full rotate_deck rotate_deck_perm "medium" one_up
                         one_up_reachable))).
Defined.

(** ** Timers, clock cells and messages *)

Lemma depsChanged_false_all (prev next : Game) :
  depsChanged prev next = false ->
  matchedPairs prev = matchedPairs next /\ gameStarted prev = gameStarted next
  /\ moves prev = moves next /\ timeElapsed prev = timeElapsed next.
Proof.
  unfold depsChanged. intros H. apply negb_false_iff in H.
  apply andb_prop in H as [H H4]. apply andb_prop in H as [H H3].
  apply andb_prop in H as [H1 H2].
  repeat split; try (now apply Z.eqb_eq). now apply Bool.eqb_prop.
Qed.

Lemma commit_no_win (d : string) (prev next : Game) :
  matchedPairs next <> totalPairs d \/ gameStarted next = false ->
  commit d prev next = (next, []).
Proof.
  intros H. unfold commit, winCheck.
  destruct (depsChanged prev next); [| reflexivity].
  destruct (Z.eqb_spec (matchedPairs next) (totalPairs d)) as [E | _];
    [| reflexivity].
  destruct H as [H | ->]; [contradiction | reflexivity].
Qed.

Lemma handleCardClick_scheduled (now cardId a b : Z) (g : Game) :
  rejected cardId g = false -> flippedCards g ++ [cardId] = [a; b] ->
  exists t, snd (handleCardClick now cardId g) = [t]
            /\ firstId t = a /\ secondId t = b /\ due t = now + delay t
            /\ (branch t = MatchFound /\ delay t = 1000
                \/ branch t = NoMatch /\ delay t = 1500).
Proof.
  intros R E. pose proof (handleCardClick_accepted now _ _ R) as H.
  cbv zeta in H. rewrite H, E. clear H. simpl.
  destruct (sameSymbol _ _); eexists; simpl; repeat split; auto.
Qed.

Section Clock.

Variable shuffle : nat -> list Card -> list Card.
Variable difficulty : string.

Local Abbreviation step := (step shuffle difficulty).
Local Abbreviation mount := (mount shuffle difficulty).
Local Abbreviation reachable := (reachable shuffle difficulty).

(** X9. In every reachable state in which two cards are selected (so that
    clicks are turned down), the callback that will empty the selection is
    in the timer queue: it names the two selected cards and has delay 1000
    (match) or 1500 (no match). *)
Theorem selection_has_callback (sys : Sys) (a b : Z) :
  reachable sys -> flippedCards (game sys) = [a; b] ->
  exists t, In t (timers sys) /\ firstId t = a /\ secondId t = b
            /\ (branch t = MatchFound /\ delay t = 1000
                \/ branch t = NoMatch /\ delay t = 1500).
Proof.
  intros Hreach. revert a b.
  induction Hreach as [seed | sys ev Hreach IH]; intros a b Hsel.
  - discriminate Hsel.
  - destruct sys as [g ts ps]. simpl in IH.
    destruct ev as [now cardId | seed | i | now]; simpl in Hsel |- *.
    + destruct (handleCardClick_state now cardId g) as (Hr & Ha & _).
      pose proof (handleCardClick_scheduled now cardId a b g) as Hsch.
      destruct (handleCardClick now cardId g) as [next scheduled].
      simpl fst in *. simpl snd in *.
      commit_fields difficulty g next. simpl in Hsel |- *.
      destruct (rejected cardId g).
      * destruct (Hr eq_refl) as [_ E2].
        destruct (IH a b) as (t & Ht & Hrest); [congruence |].
        exists t. split; [apply in_app_iff; now left | exact Hrest].
      * destruct (Ha eq_refl) as [_ E2].
        destruct (Hsch eq_refl) as (t & -> & Hi1 & Hi2 & _ & Hi4); [congruence |].
        exists t. split; [apply in_app_iff; right; now left |].
        repeat split; assumption.
    + commit_fields difficulty g (initializeGame shuffle difficulty seed g).
      simpl in Hsel.
      match goal with H : flippedCards g0 = _ |- _ => rewrite H in Hsel end.
      discriminate Hsel.
    + destruct (nth_error ts i) as [t |]; [| now apply IH].
      destruct (runTimeout_fields t g) as (Hf & _).
      commit_fields difficulty g (runTimeout t g). simpl in Hsel.
      match goal with H : flippedCards g0 = _ |- _ => rewrite H in Hsel end.
      rewrite Hf in Hsel. discriminate Hsel.
    + destruct (intervalActive g); [| now apply IH].
      commit_fields difficulty g (intervalCallback now g). simpl in Hsel |- *.
      apply IH.
      match goal with H : flippedCards g0 = _ |- _ => rewrite H in Hsel end.
      exact Hsel.
Qed.

(** Kept as a lemma of its own for the proofs below. *)
Lemma step_NewGame (sys : Sys) (seed : nat) :
  step sys (NewGame seed)
  = mkSys (setStartTime (startTime (game sys)) (game (mount seed)))
          (timers sys) (posted sys).
Proof.
  destruct sys as [g ts ps]. simpl.
  rewrite commit_no_win by (right; reflexivity).
  now rewrite app_nil_r.
Qed.

(** X10. "New Game" leaves the component as a fresh mount with the same
    seed would, except for three things it does not touch: the start
    timestamp, the callbacks still in the timer queue, and the messages
    already posted.  In particular it never posts. *)
Theorem NewGame_is_mount (sys : Sys) (seed : nat) :
  step sys (NewGame seed)
  = mkSys (setStartTime (startTime (game sys)) (game (mount seed)))
          (timers sys) (posted sys).
Proof. apply step_NewGame. Qed.

(** Kept as a lemma of its own for the proofs below. *)
Lemma step_clock (sys : Sys) (ev : Event) :
  let g := game sys in
  let g' := game (step sys ev) in
  (startTime g' = startTime g
   \/ exists now cardId, ev = Click now cardId /\ gameStarted g = false
                         /\ startTime g' = now)
  /\ (timeElapsed g' = timeElapsed g
      \/ (exists now, ev = IntervalTick now /\ intervalActive g = true
                      /\ timeElapsed g' = now - startTime g)
      \/ (exists seed, ev = NewGame seed /\ timeElapsed g' = 0)).
Proof.
  destruct sys as [g ts ps]. cbv zeta. simpl game at 1 3 5 7 8 10.
  destruct ev as [now cardId | seed | i | now].
  - simpl.
    destruct (handleCardClick_state now cardId g)
      as (_ & _ & _ & _ & _ & _ & He).
    assert (startTime (fst (handleCardClick now cardId g))
            = startTime (latchStart now g)) as Hst.
    { destruct (rejected cardId g) eqn:R.
      - now rewrite (handleCardClick_rejected _ _ _ R).
      - pose proof (handleCardClick_accepted now _ _ R) as E. cbv zeta in E.
        rewrite E.
        now destruct (Z.of_nat (List.length (flippedCards g ++ [cardId])) =? 2). }
    destruct (handleCardClick now cardId g) as [next scheduled].
    simpl fst in *. commit_fields difficulty g next. simpl game.
    split; [| left; congruence].
    match goal with H : startTime g0 = _ |- _ => rewrite H end.
    rewrite Hst. unfold latchStart.
    destruct (gameStarted g) eqn:S; simpl; [now left |].
    right. now exists now, cardId.
  - rewrite step_NewGame. simpl.
    split; [now left |]. right; right. now exists seed.
  - simpl. destruct (nth_error ts i) as [t |]; [| split; now left].
    destruct (runTimeout_state t g) as (_ & _ & He).
    assert (startTime (runTimeout t g) = startTime g) as Hst
      by (unfold runTimeout; now destruct (branch t)).
    commit_fields difficulty g (runTimeout t g). simpl game.
    split; left; congruence.
  - simpl. destruct (intervalActive g) eqn:A; [| split; now left].
    commit_fields difficulty g (intervalCallback now g). simpl game.
    split; [now left |]. right; left. exists now.
    repeat split. assumption.
Qed.

(** X11. Who writes the clock cells: the start timestamp changes only at a
    click on a game that has not started, and becomes the time of that click;
    the elapsed time changes only at a sampler tick of a started, unfinished
    game, where it becomes the time of the tick minus the start timestamp, or
    at "New Game", where it becomes 0. *)
Theorem clock_cells (sys : Sys) (ev : Event) :
  let g := game sys in
  let g' := game (step sys ev) in
  (startTime g' = startTime g
   \/ exists now cardId, ev = Click now cardId /\ gameStarted g = false
                         /\ startTime g' = now)
  /\ (timeElapsed g' = timeElapsed g
      \/ (exists now, ev = IntervalTick now /\ intervalActive g = true
                      /\ timeElapsed g' = now - startTime g)
      \/ (exists seed, ev = NewGame seed /\ timeElapsed g' = 0)).
Proof. apply step_clock. Qed.

(** X12. Once the game is won it stays won, its elapsed time stands still
    and the sampler is off, until "New Game" is pressed. *)
Theorem won_until_NewGame (sys : Sys) (ev : Event) :
  gameWon (game sys) = true -> isNewGame ev = false ->
  gameWon (game (step sys ev)) = true
  /\ timeElapsed (game (step sys ev)) = timeElapsed (game sys)
  /\ intervalActive (game (step sys ev)) = false
  /\ forall now, step sys (IntervalTick now) = sys.
Proof.
  intros Hw Hev.
  assert (forall prev next, gameWon next = true ->
            gameWon (fst (commit difficulty prev next)) = true) as Hkeep.
  { intros prev next Hn. unfold commit, winCheck.
    destruct (depsChanged prev next); [| exact Hn].
    now destruct ((matchedPairs next =? totalPairs difficulty) && gameStarted next). }
  assert (gameWon (game (step sys ev)) = true) as Hw'.
  { destruct sys as [g ts ps]. simpl in Hw.
    destruct ev as [now cardId | seed | i | now]; try discriminate Hev; simpl.
    - destruct (handleCardClick_state now cardId g)
        as (_ & _ & _ & _ & _ & Hk & _).
      destruct (handleCardClick now cardId g) as [next scheduled].
      simpl fst in Hk. specialize (Hkeep g next).
      destruct (commit difficulty g next). simpl in *. apply Hkeep. congruence.
    - destruct (nth_error ts i) as [t |]; [| exact Hw].
      destruct (runTimeout_fields t g) as (_ & _ & _ & Hk & _).
      specialize (Hkeep g (runTimeout t g)).
      destruct (commit difficulty g (runTimeout t g)). simpl in *.
      apply Hkeep. congruence.
    - unfold intervalActive. rewrite Hw, andb_false_r. exact Hw. }
  assert (timeElapsed (game (step sys ev)) = timeElapsed (game sys)) as He'.
  { destruct (step_clock sys ev)
      as [_ [E | [(now & -> & A & _) | (seed & -> & _)]]].
    - exact E.
    - unfold intervalActive in A. rewrite Hw, andb_false_r in A. discriminate.
    - discriminate Hev. }
  split; [exact Hw' |]. split; [exact He' |].
  split; [unfold intervalActive; now rewrite Hw', andb_false_r |].
  intros now. destruct sys as [g ts ps]. simpl in *.
  unfold intervalActive. now rewrite Hw, andb_false_r.
Qed.

(** X13. An event posts nothing, or it posts one record, the same to both
    windows; in the second case the event is not "New Game", and after it
    the count equals [totalPairs], the game is started and won, and the
    record carries the move count and elapsed time of that state. *)
Theorem posting_discipline (sys : Sys) (ev : Event) :
  let sys' := step sys ev in
  posted sys' = posted sys
  \/ (posted sys'
      = posted sys ++ [(ToWindow, completionData difficulty (game sys'));
                       (ToParent, completionData difficulty (game sys'))]
      /\ isNewGame ev = false
      /\ matchedPairs (game sys') = totalPairs difficulty
      /\ gameStarted (game sys') = true
      /\ gameWon (game sys') = true).
Proof.
  cbv zeta.
  destruct (isNewGame ev) eqn:Hev.
  { destruct ev; try discriminate. rewrite step_NewGame. now left. }
  destruct (step_commit shuffle difficulty sys ev) as (next & Hg & Hp & _).
  rewrite Hp, Hg.
  pose proof (commit_game difficulty (game sys) next) as F. cbv zeta in F.
  destruct F as (_ & _ & Fp & Fm & Fs & _ & Fe).
  destruct (commit_posts difficulty (game sys) next)
    as [[E _] | (E & Hw & Hm & Hs & _)].
  - left. now rewrite E, app_nil_r.
  - right. rewrite E, Fp, Fs.
    assert (completionData difficulty (fst (commit difficulty (game sys) next))
            = completionData difficulty next) as ->
      by (unfold completionData; now rewrite Fm, Fe).
    now repeat split.
Qed.

End Clock.

(** ** Whole pairs *)

(** A callback is scheduled only by an accepted click on a selection of one,
    for that one and the clicked identifier. *)
Lemma handleCardClick_timer (now cardId : Z) (g : Game) (t : Timeout) :
  In t (snd (handleCardClick now cardId g)) ->
  exists a, flippedCards g = [a] /\ rejected cardId g = false
            /\ firstId t = a /\ secondId t = cardId
            /\ (branch t = MatchFound ->
                sameSymbol (findCard a (cards g)) (findCard cardId (cards g))
                = true).
Proof.
  destruct (rejected cardId g) eqn:R.
  - rewrite (handleCardClick_rejected _ _ _ R). intros [].
  - pose proof (handleCardClick_accepted now _ _ R) as E. cbv zeta in E.
    rewrite E. clear E.
    destruct (Z.eqb_spec (Z.of_nat (List.length (flippedCards g ++ [cardId]))) 2)
      as [L | L]; [| intros []].
    intros Hin. rewrite length_app in L. simpl in L.
    destruct (flippedCards g) as [| a [| b rest]]; simpl in L; try lia.
    simpl in Hin. exists a.
    destruct (sameSymbol (findCard a (cards g)) (findCard cardId (cards g)));
      destruct Hin as [<- | []]; simpl; repeat split; auto; discriminate.
Qed.

Section Pairs.

Variable shuffle : nat -> list Card -> list Card.
Hypothesis shuffle_perm : forall seed l, Permutation l (shuffle seed l).
Variable difficulty : string.

Local Abbreviation step := (step shuffle difficulty).
Local Abbreviation mount := (mount shuffle difficulty).
Local Abbreviation reachable := (reachable shuffle difficulty).

(** Kept as a lemma of its own for the proofs below. *)
Lemma reachable_callbacks (sys : Sys) (t : Timeout) :
  reachable sys -> In t (timers sys) ->
  firstId t <> secondId t
  /\ (branch t = MatchFound -> firstId t / 2 = secondId t / 2).
Proof.
  intros Hreach. revert t.
  induction Hreach as [seed | sys ev Hreach IH]; intros t Ht.
  - destruct Ht.
  - destruct sys as [g ts ps]. simpl in IH.
    destruct ev as [now cardId | seed | i | now]; simpl in Ht.
    + pose proof (handleCardClick_timer now cardId g t) as Hsch.
      destruct (handleCardClick now cardId g) as [next scheduled].
      destruct (commit difficulty g next) as [g' msgs]. simpl in Ht, Hsch.
      apply in_app_iff in Ht as [Ht | Ht]; [now apply IH |].
      destruct (Hsch Ht) as (a & Hsel & R & -> & -> & Hm).
      split.
      * unfold rejected in R. rewrite Hsel in R.
        apply orb_false_elim in R as [R _].
        apply orb_false_elim in R as [_ R]. now apply includes_single.
      * intros B. specialize (Hm B). unfold sameSymbol in Hm.
        destruct (findCard a (cards g)) as [c1 |] eqn:F1; [| discriminate].
        destruct (findCard cardId (cards g)) as [c2 |] eqn:F2; [| discriminate].
        apply findCard_In in F1 as [Hin1 <-].
        apply findCard_In in F2 as [Hin2 <-].
        apply String.eqb_eq in Hm.
        now apply (reachable_pairs shuffle shuffle_perm difficulty
                     (mkSys g ts ps) c1 c2 Hreach Hin1 Hin2).
    + destruct (commit difficulty g _) as [g' msgs]. simpl in Ht. now apply IH.
    + destruct (nth_error ts i) as [t0 |]; [| now apply IH].
      destruct (commit difficulty g _) as [g' msgs]. simpl in Ht.
      apply IH. now apply dropTimer_In in Ht.
    + destruct (intervalActive g); [| now apply IH].
      destruct (commit difficulty g _) as [g' msgs]. simpl in Ht. now apply IH.
Qed.

(** X14. Every callback in the timer queue of a reachable state names two
    different identifiers, and a match callback names the two cards of one
    pair, also when it was scheduled before a "New Game". *)
Theorem callbacks_name_pairs (sys : Sys) (t : Timeout) :
  reachable sys -> In t (timers sys) ->
  firstId t <> secondId t
  /\ (branch t = MatchFound -> firstId t / 2 = secondId t / 2).
Proof. apply reachable_callbacks. Qed.

(** X15. In every reachable state cards are matched in whole pairs: the two
    cards whose identifiers have the same half are both matched or both
    unmatched. *)
Theorem matched_in_pairs (sys : Sys) (c c' : Card) :
  reachable sys ->
  In c (cards (game sys)) -> In c' (cards (game sys)) ->
  id c / 2 = id c' / 2 -> matched c = matched c'.
Proof.
  intros Hreach. revert c c'.
  assert (forall l : list Card,
            Forall (fun x => matched x = false /\ flipped x = false) l ->
            forall c c', In c l -> In c' l -> matched c = matched c') as Hfresh.
  { intros l Hl c c' Hc Hc'. rewrite Forall_forall in Hl.
    destruct (Hl c Hc) as [-> _]. now destruct (Hl c' Hc') as [-> _]. }
  assert (forall seed,
            Forall (fun x => matched x = false /\ flipped x = false)
                   (shuffle seed (createPairs (selectedItems difficulty))))
    as Hdeck.
  { intros seed. apply (Permutation_Forall (shuffle_perm seed _)).
    apply (gameCards_facts difficulty). }
  induction Hreach as [seed | sys ev Hreach IH]; intros c c' Hc Hc' Hhalf.
  - eapply Hfresh; [| exact Hc | exact Hc']. apply Hdeck.
  - pose proof (reachable_callbacks sys) as Hcb.
    destruct sys as [g ts ps]. simpl in IH.
    assert (forall F : Card -> Card,
              (forall x, id (F x) = id x /\ matched (F x) = matched x) ->
              In c (map F (cards g)) -> In c' (map F (cards g)) ->
              matched c = matched c') as Hmap.
    { intros F HF H1 H2.
      apply in_map_iff in H1 as (c0 & <- & H1).
      apply in_map_iff in H2 as (c0' & <- & H2).
      destruct (HF c0) as [Ei Em]. destruct (HF c0') as [Ei' Em'].
      rewrite Em, Em'. apply IH; congruence. }
    destruct ev as [now cardId | seed | i | now]; simpl in Hc, Hc'.
    + destruct (handleCardClick_state now cardId g) as (Hr & Ha & _).
      destruct (handleCardClick now cardId g) as [next scheduled].
      simpl fst in *. commit_fields difficulty g next. simpl in Hc, Hc'.
      match goal with H : cards g0 = _ |- _ => rewrite H in Hc, Hc' end.
      destruct (rejected cardId g).
      * rewrite (proj1 (Hr eq_refl)) in Hc, Hc'. now apply IH.
      * rewrite (proj1 (Ha eq_refl)) in Hc, Hc'.
        eapply Hmap; [| exact Hc | exact Hc'].
        intros x. cbv beta. destruct (id x =? cardId); split; reflexivity.
    + commit_fields difficulty g (initializeGame shuffle difficulty seed g).
      simpl in Hc, Hc'.
      match goal with H : cards g0 = _ |- _ => rewrite H in Hc, Hc' end.
      eapply Hfresh; [| exact Hc | exact Hc']. apply Hdeck.
    + destruct (nth_error ts i) as [t |] eqn:Hi; [| now apply IH].
      destruct (runTimeout_state t g) as (Hcards & _).
      commit_fields difficulty g (runTimeout t g). simpl in Hc, Hc'.
      match goal with H : cards g0 = _ |- _ => rewrite H in Hc, Hc' end.
      rewrite Hcards in Hc, Hc'.
      destruct (Hcb t Hreach (nth_error_In _ _ Hi)) as [Hne Hpair].
      destruct (branch t) eqn:B.
      * specialize (Hpair eq_refl).
        apply in_map_iff in Hc as (c0 & <- & Hin0).
        apply in_map_iff in Hc' as (c0' & <- & Hin0').
        assert (id c0 / 2 = id c0' / 2) as Hh.
        { revert Hhalf.
          destruct ((id c0 =? firstId t) || (id c0 =? secondId t)),
            ((id c0' =? firstId t) || (id c0' =? secondId t)); simpl; auto. }
        specialize (IH c0 c0' Hin0 Hin0' Hh). clear Hhalf.
        destruct (Z.eqb_spec (id c0) (firstId t)),
          (Z.eqb_spec (id c0) (secondId t)),
          (Z.eqb_spec (id c0') (firstId t)),
          (Z.eqb_spec (id c0') (secondId t)); simpl; try reflexivity;
          try exact IH; exfalso;
          Z.to_euclidean_division_equations; lia.
      * eapply Hmap; [| exact Hc | exact Hc'].
        intros x. cbv beta.
        destruct ((id x =? firstId t) || (id x =? secondId t));
          split; reflexivity.
    + destruct (intervalActive g); [| now apply IH].
      commit_fields difficulty g (intervalCallback now g). simpl in Hc, Hc'.
      match goal with H : cards g0 = _ |- _ => rewrite H in Hc, Hc' end.
      now apply IH.
Qed.

(** X16. In every reachable state in which the count equals [totalPairs]
    and the game has started, the win message is on display and the last
    record posted to each window carries exactly the move count, the elapsed
    time and the score that the message shows. *)
Theorem display_matches_record (sys : Sys) :
  reachable sys ->
  matchedPairs (game sys) = totalPairs difficulty ->
  gameStarted (game sys) = true ->
  exists earlier r,
    posted sys = earlier ++ [(ToWindow, r); (ToParent, r)]
    /\ r = completionData difficulty (game sys)
    /\ winMessage (game sys)
       = Some [ "🏆 VICTORY! 🏆";
                String.append "Mission Accomplished in "
                  (String.append (toString (data_moves r)) " moves!");
                String.append "Time: " (formatTime (timeSpent r));
                String.append "Score: "
                  (String.append (toString (score r)) " points") ].
Proof.
  intros Hreach Hp Hs.
  assert (exists earlier,
            posted sys
            = earlier ++ [(ToWindow, completionData difficulty (game sys));
                          (ToParent, completionData difficulty (game sys))])
    as [earlier He].
  { revert Hp Hs. induction Hreach as [seed | sys ev Hreach IH]; intros Hp Hs.
    - discriminate Hs.
    - destruct (step_commit shuffle difficulty sys ev) as (next & Hg & Hpost & _).
      rewrite Hg in Hp, Hs |- *. rewrite Hpost.
      pose proof (commit_game difficulty (game sys) next) as F. cbv zeta in F.
      destruct F as (_ & _ & Fp & Fm & Fs & _ & Fe).
      rewrite Fp in Hp. rewrite Fs in Hs.
      assert (completionData difficulty (fst (commit difficulty (game sys) next))
              = completionData difficulty next) as ->
        by (unfold completionData; now rewrite Fm, Fe).
      unfold commit in *.
      destruct (depsChanged (game sys) next) eqn:D.
      + exists (posted sys). unfold winCheck.
        now rewrite Hp, Z.eqb_refl, Hs.
      + apply depsChanged_false_all in D as (Dp & Ds & Dm & De).
        destruct IH as [earlier IH]; [congruence | congruence |].
        exists earlier. simpl. rewrite app_nil_r, IH.
        unfold completionData. now rewrite Dm, De. }
  exists earlier, (completionData difficulty (game sys)).
  split; [exact He |]. split; [reflexivity |].
  unfold winMessage.
  now rewrite (proj1 (reachable_won shuffle difficulty sys Hreach) Hp Hs).
Qed.

End Pairs.

(** ** A perfect game *)

Lemma findCard_map (f : Card -> Card) (x : Z) (l : list Card) :
  (forall c, id (f c) = id c) ->
  findCard x (map f l) = option_map f (findCard x l).
Proof.
  intros H. unfold findCard. induction l as [| c l IH]; simpl; [reflexivity |].
  rewrite H. destruct (id c =? x); [reflexivity | exact IH].
Qed.

(** What clicking [x1], clicking [x2] and the match callback do, together,
    to one face-down card. *)
Lemma turn_card (x1 x2 : Z) (c : Card) :
  x1 <> x2 -> flipped c = false ->
  let flip := fun x (card : Card) =>
                if id card =? x then spread_flipped true card else card in
  let mark := fun card : Card =>
                if (id card =? x1) || (id card =? x2)
                then spread_matched_flipped true false card else card in
  let c' := mark (flip x2 (flip x1 c)) in
  id c' = id c /\ flipped c' = false
  /\ matched c' = (if (id c =? x1) || (id c =? x2) then true else matched c).
Proof.
  intros Hne Hf. destruct c as [i s n m f]. simpl in Hf. subst f. simpl.
  destruct (Z.eqb_spec i x1) as [-> | A]; simpl.
  - destruct (Z.eqb_spec x1 x2) as [E | _]; [contradiction |]. simpl.
    rewrite Z.eqb_refl. simpl. now repeat split.
  - destruct (Z.eqb_spec i x2) as [-> | B]; simpl.
    + rewrite Z.eqb_refl, orb_true_r. simpl. now repeat split.
    + destruct (Z.eqb_spec i x1); [contradiction |].
      destruct (Z.eqb_spec i x2); [contradiction |]. simpl. now repeat split.
Qed.

Lemma timedPlay_events (k : Z) (turns : list Turn) :
  map snd (timedPlay k turns) = perfectPlay k turns.
Proof.
  assert (forall l, map snd (stamps l) = ticks l) as S.
  { intros l. unfold stamps, ticks. rewrite map_map. reflexivity. }
  revert k. induction turns as [| t rest IH]; intros k; [reflexivity |].
  cbn [timedPlay perfectPlay].
  rewrite map_app, S. cbn [map snd]. rewrite map_app, S. cbn [map snd].
  rewrite map_app, S. cbn [map snd]. rewrite IH. reflexivity.
Qed.

Lemma run_app (shuffle : nat -> list Card -> list Card) (d : string)
    (sys : Sys) (l1 l2 : list Event) :
  run shuffle d sys (l1 ++ l2) = run shuffle d (run shuffle d sys l1) l2.
Proof. unfold run. apply fold_left_app. Qed.

Section PerfectGame.

Variable shuffle : nat -> list Card -> list Card.
Hypothesis shuffle_perm : forall seed l, Permutation l (shuffle seed l).
Variable difficulty : string.

Local Abbreviation stepD := (step shuffle difficulty).
Local Abbreviation runD := (run shuffle difficulty).
Local Abbreviation mountD := (mount shuffle difficulty).
Local Abbreviation reachable := (reachable shuffle difficulty).

(** Every identifier between 0 and 2 x totalPairs names a card of a
    reachable deck. *)
Lemma deck_has (sys : Sys) (x : Z) :
  reachable sys -> 0 <= x < 2 * totalPairs difficulty ->
  exists c, In c (cards (game sys)) /\ id c = x
            /\ findCard x (cards (game sys)) = Some c.
Proof.
  intros Hreach Hx.
  pose proof (reachable_deck_ok shuffle shuffle_perm difficulty sys Hreach) as Hd.
  pose proof (deck_ok_NoDup difficulty sys Hd) as Hnd.
  destruct Hd as [P _].
  assert (In x (deckIds difficulty)) as Hin.
  { rewrite (proj2 (gameCards_paired difficulty)).
    apply in_map_iff. exists (Z.to_nat x). split; [lia |].
    apply in_seq. lia. }
  apply (Permutation_in _ P) in Hin.
  apply in_map_iff in Hin as (c & E & Hc).
  exists c. split; [exact Hc |]. split; [exact E |].
  rewrite <- E. now apply findCard_unique.
Qed.

Lemma tick_shape (sys : Sys) (now : Z) cs sel ts p m st w ps :
  reachable sys -> shape sys cs sel ts p m st w ps ->
  shape (stepD sys (IntervalTick now)) cs sel ts p m st w ps.
Proof.
  intros Hreach H. destruct (reachable_won shuffle difficulty sys Hreach) as [Hwon _].
  destruct sys as [g ts0 ps0]. unfold shape in *. cbn [game timers posted] in *.
  destruct H as (H1 & H2 & H3 & H4 & H5 & H6 & H7 & H8).
  unfold step. cbn [game timers posted]. unfold intervalActive.
  destruct (gameStarted g) eqn:Hs; cbn [andb];
    [| cbn [game timers posted]; repeat split; congruence].
  destruct (gameWon g) eqn:Hw; cbn [negb];
    [cbn [game timers posted]; repeat split; congruence |].
  rewrite commit_no_win.
  - rewrite app_nil_r. unfold intervalCallback. simpl. repeat split; congruence.
  - left. intros E. apply Hwon in E; [discriminate | reflexivity].
Qed.

Lemma ticks_shape (l : list Z) (sys : Sys) cs sel ts p m st w ps :
  reachable sys -> shape sys cs sel ts p m st w ps ->
  shape (runD sys (ticks l)) cs sel ts p m st w ps.
Proof.
  revert sys. induction l as [| now l IH]; intros sys Hreach H; [exact H |].
  apply IH; [now apply reachable_step | now apply tick_shape].
Qed.

Lemma ticks_won (l : list Z) (sys : Sys) :
  gameWon (game sys) = true -> runD sys (ticks l) = sys.
Proof.
  intros Hw. induction l as [| now l IH]; [reflexivity |].
  cbn [ticks map run fold_left].
  assert (stepD sys (IntervalTick now) = sys) as ->.
  { unfold step, intervalActive. now rewrite Hw, andb_false_r. }
  exact IH.
Qed.

Lemma first_click_shape (sys : Sys) (t x : Z) (c : Card) cs p m st w ps :
  shape sys cs [] [] p m st w ps -> p <> totalPairs difficulty ->
  findCard x cs = Some c -> matched c = false ->
  shape (stepD sys (Click t x)) (map (flipCard x) cs) [x] [] p m true w ps.
Proof.
  intros (H1 & H2 & H3 & H4 & H5 & H6 & H7 & H8) Hp F M.
  destruct sys as [g ts0 ps0]. cbn [game timers posted] in *. subst.
  destruct (latchStart_fields t g) as (Lc & Lf & Lp & Lm & Lw & Le).
  assert (gameStarted (latchStart t g) = true) as Ls
    by (unfold latchStart; destruct (gameStarted g) eqn:S; simpl; auto).
  assert (rejected x g = false) as R
    by (unfold rejected; rewrite H2, F; simpl; exact M).
  pose proof (handleCardClick_accepted t _ _ R) as E. cbv zeta in E.
  rewrite H2 in E. simpl in E.
  unfold step. cbn [game timers posted]. rewrite E.
  rewrite commit_no_win by (left; simpl; congruence).
  unfold shape. simpl. rewrite Lc, Lp, Lm, Lw, Ls, !app_nil_r.
  repeat split.
Qed.

Lemma second_click_shape (sys : Sys) (t x1 x2 : Z) (c1 c2 : Card)
    cs p m w ps :
  shape sys cs [x1] [] p m true w ps -> p <> totalPairs difficulty ->
  x1 <> x2 ->
  findCard x1 cs = Some c1 -> findCard x2 cs = Some c2 ->
  symbol c1 = symbol c2 -> matched c2 = false ->
  shape (stepD sys (Click t x2)) (map (flipCard x2) cs) [x1; x2]
        [mkTimeout x1 x2 MatchFound 1000 (t + 1000)] p (m + 1) true w ps.
Proof.
  intros (H1 & H2 & H3 & H4 & H5 & H6 & H7 & H8) Hp Hne F1 F2 Hsym M.
  destruct sys as [g ts0 ps0]. cbn [game timers posted] in *. subst.
  assert (latchStart t g = g) as L by (unfold latchStart; now rewrite H6).
  assert (rejected x2 g = false) as R.
  { unfold rejected. rewrite H2, F2. simpl. rewrite M, !orb_false_r.
    apply Z.eqb_neq. lia. }
  pose proof (handleCardClick_accepted t _ _ R) as E. cbv zeta in E.
  rewrite L, H2 in E. change ([x1] ++ [x2]) with [x1; x2] in E.
  simpl List.length in E. simpl Z.eqb in E. cbv iota in E. simpl nth in E.
  rewrite F1, F2 in E. unfold sameSymbol in E.
  rewrite Hsym, String.eqb_refl in E.
  unfold step. cbn [game timers posted]. rewrite E.
  rewrite commit_no_win by (left; simpl; congruence).
  unfold shape. simpl. rewrite H6, !app_nil_r. repeat split.
Qed.

Lemma callback_shape (sys : Sys) (x1 x2 dl du : Z) cs sel p m w ps :
  shape sys cs sel [mkTimeout x1 x2 MatchFound dl du] p m true w ps ->
  let sys' := stepD sys (TimeoutFires 0) in
  (p + 1 <> totalPairs difficulty ->
   shape sys' (map (markPair x1 x2) cs) [] [] (p + 1) m true w ps)
  /\ (p + 1 = totalPairs difficulty ->
      shape sys' (map (markPair x1 x2) cs) [] [] (p + 1) m true true
            (ps ++ [(ToWindow, completionData difficulty (game sys'));
                    (ToParent, completionData difficulty (game sys'))])).
Proof.
  intros (H1 & H2 & H3 & H4 & H5 & H6 & H7 & H8).
  destruct sys as [g ts0 ps0]. cbn [game timers posted] in *. subst.
  cbv zeta. unfold step. cbn [game timers posted nth_error].
  unfold dropTimer. cbn [firstn skipn List.app].
  unfold runTimeout. cbn [branch firstId secondId].
  set (g3 := matchCallback x1 x2 g).
  assert (cards g3 = map (markPair x1 x2) (cards g)) as Hc by reflexivity.
  assert (flippedCards g3 = []) as Hf by reflexivity.
  assert (matchedPairs g3 = matchedPairs g + 1) as Hp by reflexivity.
  assert (moves g3 = moves g) as Hm by reflexivity.
  assert (gameStarted g3 = true) as Hs by exact H6.
  assert (gameWon g3 = gameWon g) as Hw by reflexivity.
  assert (timeElapsed g3 = timeElapsed g) as He by reflexivity.
  clearbody g3.
  assert (depsChanged g g3 = true) as D.
  { unfold depsChanged. rewrite Hp.
    replace (matchedPairs g =? matchedPairs g + 1) with false
      by (symmetry; apply Z.eqb_neq; lia).
    reflexivity. }
  unfold commit. rewrite D. unfold winCheck. rewrite Hp, Hs, andb_true_r.
  destruct (Z.eqb_spec (matchedPairs g + 1) (totalPairs difficulty)) as [W | W];
    unfold shape;
    cbn [game timers posted cards flippedCards matchedPairs moves timeElapsed
         gameStarted gameWon setGameWon].
  - split; [intros N; contradiction |]. intros _.
    rewrite Hc, Hf, Hp, Hm, Hs. repeat split.
  - split; [| intros N; contradiction]. intros _.
    rewrite Hc, Hf, Hp, Hm, Hs, Hw, app_nil_r. repeat split.
Qed.

Lemma perfect_turn (sys : Sys) (k : Z) (t : Turn) cs m st w ps :
  reachable sys -> 0 <= k < totalPairs difficulty ->
  shape sys cs [] [] k m st w ps -> firstMatched k cs ->
  let sys' :=
    runD sys (ticks (before t) ++ Click (click1 t) (2 * k)
                :: ticks (between t) ++ Click (click2 t) (2 * k + 1)
                :: ticks (waiting t) ++ [TimeoutFires 0]) in
  exists cs',
    firstMatched (k + 1) cs'
    /\ (k + 1 <> totalPairs difficulty ->
        shape sys' cs' [] [] (k + 1) (m + 1) true w ps)
    /\ (k + 1 = totalPairs difficulty ->
        shape sys' cs' [] [] (k + 1) (m + 1) true true
              (ps ++ [(ToWindow, completionData difficulty (game sys'));
                      (ToParent, completionData difficulty (game sys'))])).
Proof.
  intros Hreach Hk Hsh Hflags sys'. subst sys'.
  remember (2 * k + 1) as x2 eqn:Hx2. remember (2 * k) as x1 eqn:Hx1.
  assert (x1 <> x2) as Hne by lia.
  (* the two cards of the pair *)
  assert (cards (game sys) = cs) as Hcs by apply Hsh.
  destruct (deck_has sys x1 Hreach ltac:(lia))
    as (c1 & Hc1 & Ei1 & F1).
  destruct (deck_has sys x2 Hreach ltac:(lia))
    as (c2 & Hc2 & Ei2 & F2).
  rewrite Hcs in Hc1, Hc2, F1, F2.
  assert (symbol c1 = symbol c2) as Hsym.
  { apply (reachable_pairs shuffle shuffle_perm difficulty sys c1 c2 Hreach);
      [now rewrite Hcs | now rewrite Hcs |].
    rewrite Ei1, Ei2. Z.to_euclidean_division_equations; lia. }
  destruct (Hflags c1 Hc1) as [Hm1 _]. destruct (Hflags c2 Hc2) as [Hm2 _].
  rewrite Ei1 in Hm1. rewrite Ei2 in Hm2.
  assert (matched c1 = false) as M1 by (rewrite Hm1; apply Z.ltb_ge; lia).
  assert (matched c2 = false) as M2 by (rewrite Hm2; apply Z.ltb_ge; lia).
  assert (k <> totalPairs difficulty) as Hkn by lia.
  assert (forall x c, id (flipCard x c) = id c
                      /\ symbol (flipCard x c) = symbol c
                      /\ matched (flipCard x c) = matched c) as Hflip
    by (intros x c; unfold flipCard; destruct (id c =? x); repeat split).
  (* ticks, first click *)
  rewrite run_app.
  set (sa := runD sys (ticks (before t))).
  assert (reachable sa) as Ra by (now apply reachable_run).
  pose proof (ticks_shape (before t) sys _ _ _ _ _ _ _ _ Hreach Hsh) as Sa.
  fold sa in Sa.
  change (runD sa (Click (click1 t) x1 :: ?l))
    with (runD (stepD sa (Click (click1 t) x1)) l).
  pose proof (first_click_shape sa (click1 t) x1 c1 _ _ _ _ _ _ Sa Hkn F1 M1)
    as Sb.
  set (sb := stepD sa (Click (click1 t) x1)) in *.
  assert (reachable sb) as Rb by (now apply reachable_step).
  (* ticks, second click *)
  rewrite run_app.
  set (sc := runD sb (ticks (between t))).
  assert (reachable sc) as Rc by (now apply reachable_run).
  pose proof (ticks_shape (between t) sb _ _ _ _ _ _ _ _ Rb Sb) as Sc.
  fold sc in Sc.
  change (runD sc (Click (click2 t) x2 :: ?l))
    with (runD (stepD sc (Click (click2 t) x2)) l).
  assert (findCard x1 (map (flipCard x1) cs) = Some (flipCard x1 c1)) as F11
    by (rewrite findCard_map, F1; [reflexivity | apply Hflip]).
  assert (findCard x2 (map (flipCard x1) cs) = Some (flipCard x1 c2)) as F12
    by (rewrite findCard_map, F2; [reflexivity | apply Hflip]).
  pose proof (second_click_shape sc (click2 t) x1 x2 _ _ _ _ _ _ _
                Sc Hkn Hne F11 F12) as Sd.
  rewrite (proj1 (proj2 (Hflip x1 c1))), (proj1 (proj2 (Hflip x1 c2))),
    (proj2 (proj2 (Hflip x1 c2))) in Sd.
  specialize (Sd Hsym M2).
  set (sd := stepD sc (Click (click2 t) x2)) in *.
  assert (reachable sd) as Rd by (now apply reachable_step).
  (* ticks, the callback *)
  rewrite run_app.
  set (se := runD sd (ticks (waiting t))).
  pose proof (ticks_shape (waiting t) sd _ _ _ _ _ _ _ _ Rd Sd) as Se.
  fold se in Se.
  change (runD se [TimeoutFires 0]) with (stepD se (TimeoutFires 0)).
  destruct (callback_shape se _ _ _ _ _ _ _ _ _ _ Se) as [Snot Swon].
  exists (map (markPair x1 x2) (map (flipCard x2) (map (flipCard x1) cs))).
  split; [| split; [exact Snot | exact Swon]].
  intros c' Hc'. rewrite !map_map in Hc'.
  apply in_map_iff in Hc' as (c & <- & Hc).
  destruct (Hflags c Hc) as [Hm Hf].
  assert (id (markPair x1 x2 (flipCard x2 (flipCard x1 c))) = id c
          /\ flipped (markPair x1 x2 (flipCard x2 (flipCard x1 c))) = false
          /\ matched (markPair x1 x2 (flipCard x2 (flipCard x1 c)))
             = (if (id c =? x1) || (id c =? x2) then true else matched c))
    as (Ti & Tf & Tm) by exact (turn_card x1 x2 c Hne Hf).
  rewrite Ti, Tf, Tm. split; [| reflexivity].
  destruct (Z.eqb_spec (id c) x1) as [A | A];
    destruct (Z.eqb_spec (id c) x2) as [B | B]; cbn [orb];
    try (symmetry; apply Z.ltb_lt; lia).
  rewrite Hm.
  destruct (Z.ltb_spec (id c) x1), (Z.ltb_spec (id c) (2 * (k + 1)));
    try reflexivity; lia.
Qed.

Lemma perfectPlay_cons (k : Z) (t : Turn) (rest : list Turn) :
  perfectPlay k (t :: rest)
  = (ticks (before t) ++ Click (click1 t) (2 * k)
       :: ticks (between t) ++ Click (click2 t) (2 * k + 1)
       :: ticks (waiting t) ++ [TimeoutFires 0])
    ++ perfectPlay (k + 1) rest.
Proof.
  cbn [perfectPlay].
  rewrite <- !app_assoc, <- !app_comm_cons, <- !app_assoc, <- !app_comm_cons.
  rewrite <- !app_assoc. reflexivity.
Qed.

Lemma deck_range (sys : Sys) (c : Card) :
  reachable sys -> In c (cards (game sys)) ->
  0 <= id c < 2 * totalPairs difficulty.
Proof.
  intros Hreach Hc.
  destruct (reachable_deck_ok shuffle shuffle_perm difficulty sys Hreach)
    as [P _].
  assert (In (id c) (deckIds difficulty)) as Hin.
  { apply (Permutation_in _ (Permutation_sym P)). now apply in_map. }
  rewrite (proj2 (gameCards_paired difficulty)) in Hin.
  apply in_map_iff in Hin as (n & E & Hn). apply in_seq in Hn. lia.
Qed.

Lemma mount_shape (seed : nat) :
  shape (mountD seed) (cards (game (mountD seed))) [] [] 0 0 false false []
  /\ firstMatched 0 (cards (game (mountD seed))).
Proof.
  split; [unfold shape; simpl; repeat split |].
  intros c Hc. simpl in Hc.
  destruct (gameCards_facts difficulty) as (_ & _ & _ & F).
  apply (Permutation_Forall (shuffle_perm seed _)) in F.
  rewrite Forall_forall in F. destruct (F c Hc) as [M Fl].
  split; [| exact Fl]. rewrite M. symmetry. apply Z.ltb_ge.
  assert (0 <= id c < 2 * totalPairs difficulty)
    by (apply (deck_range (mountD seed)); [apply reachable_mount | exact Hc]).
  lia.
Qed.

Lemma played (turns : list Turn) :
  forall (sys : Sys) (k : Z) cs st,
    reachable sys -> 0 <= k -> turns <> [] ->
    k + Z.of_nat (List.length turns) = totalPairs difficulty ->
    shape sys cs [] [] k k st false [] -> firstMatched k cs ->
    let sys' := runD sys (perfectPlay k turns) in
    exists cs',
      firstMatched (totalPairs difficulty) cs'
      /\ shape sys' cs' [] [] (totalPairs difficulty) (totalPairs difficulty)
               true true
               [(ToWindow, completionData difficulty (game sys'));
                (ToParent, completionData difficulty (game sys'))].
Proof.
  induction turns as [| t rest IH]; intros sys k cs st Hreach Hk Hne Hlen
    Hsh Hflags; [congruence |].
  cbv zeta. rewrite perfectPlay_cons, run_app.
  cbn [List.length] in Hlen.
  destruct (perfect_turn sys k t cs k st false [] Hreach ltac:(lia) Hsh Hflags)
    as (cs1 & Hflags1 & Snot & Swon).
  set (sys1 := runD sys _) in *.
  assert (reachable sys1) as R1 by (now apply reachable_run).
  destruct rest as [| t2 rest].
  - cbn [List.length] in Hlen.
    assert (k + 1 = totalPairs difficulty) as E by lia.
    cbn [perfectPlay run]. exists cs1. specialize (Swon E).
    rewrite E in Hflags1, Swon. split; [exact Hflags1 | exact Swon].
  - assert (k + 1 <> totalPairs difficulty) as N
      by (cbn [List.length] in Hlen; lia).
    apply (IH sys1 (k + 1) cs1 true R1); [lia | discriminate | lia | | exact Hflags1].
    exact (Snot N).
Qed.

(** X17. A game without a mistake, with the sampler running.  The
    pairs are taken in turn; for each the player clicks its two cards and
    the callback of the pair runs, and the sampler may tick any number of
    times, at any clock readings, before the first click, between the two
    clicks, while the callback waits, and after the last callback.  For any
    shuffle and any difficulty, when there are as many turns as pairs the
    game is won, every pair is matched, there is one move per pair, every
    card is matched and face down, nothing is selected and no callback is
    left, and the completion record has been posted exactly once to each
    of the two targets; it carries one move per pair and the score
    1000 - 10 x totalPairs. *)
Theorem perfect_game (seed : nat) (turns : list Turn) (after : list Z) :
  Z.of_nat (List.length turns) = totalPairs difficulty ->
  let sys := runD (mountD seed) (perfectPlay 0 turns ++ ticks after) in
  let r := completionData difficulty (game sys) in
  gameWon (game sys) = true
  /\ matchedPairs (game sys) = totalPairs difficulty
  /\ moves (game sys) = totalPairs difficulty
  /\ Forall (fun c => matched c = true /\ flipped c = false) (cards (game sys))
  /\ flippedCards (game sys) = [] /\ timers sys = []
  /\ posted sys = [(ToWindow, r); (ToParent, r)]
  /\ data_moves r = totalPairs difficulty
  /\ score r = 1000 - 10 * totalPairs difficulty.
Proof.
  intros Hlen. cbv zeta. rewrite run_app.
  destruct (mount_shape seed) as [Hsh Hflags].
  assert (turns <> []) as Hne.
  { intros ->. simpl in Hlen. destruct (totalPairs_cases difficulty); lia. }
  destruct (played turns (mountD seed) 0 _ false (reachable_mount _ _ seed)
              ltac:(lia) Hne ltac:(lia) Hsh Hflags)
    as (cs' & Hflags' & H1 & H2 & H3 & H4 & H5 & H6 & H7 & H8).
  set (sys1 := runD (mountD seed) (perfectPlay 0 turns)) in *.
  assert (reachable sys1) as R1 by (apply reachable_run, reachable_mount).
  rewrite (ticks_won after sys1 H7).
  repeat split; try assumption.
  - apply Forall_forall. intros c Hc. rewrite H1 in Hc.
    destruct (Hflags' c Hc) as [M F]. split; [| exact F].
    rewrite M. apply Z.ltb_lt.
    assert (0 <= id c < 2 * totalPairs difficulty)
      by (apply (deck_range sys1); [exact R1 | now rewrite H1]).
    lia.
  - unfold completionData. cbn [score]. rewrite H5.
    destruct (totalPairs_cases difficulty) as [-> | ->]; reflexivity.
Qed.

End PerfectGame.

Lemma perfect_game_witness :
  Z.of_nat (List.length sampled_game) = totalPairs "medium"
  /\ demo_timely demo_mount (timedPlay 0 sampled_game) = true
  /\ let sys := demo_run demo_mount
                  (perfectPlay 0 sampled_game ++ ticks [20300; 20400]) in
     let r := completionData "medium" (game sys) in
     gameWon (game sys) = true
     /\ matchedPairs (game sys) = 8
     /\ moves (game sys) = 8
     /\ Forall (fun c => matched c = true /\ flipped c = false)
               (cards (game sys))
     /\ flippedCards (game sys) = [] /\ timers sys = []
     /\ posted sys = [(ToWindow, r); (ToParent, r)]
     /\ data_moves r = 8
     /\ score r = 920.
Proof.
  split; [reflexivity |]. split; [vm_compute; reflexivity |].
  exact (perfect_game rotate_deck rotate_deck_perm "medium" 3 sampled_game
           [20300; 20400] eq_refl).
Defined.

(** ** Instances *)

Lemma pair_pending_reachable : reachable rotate_deck "medium" pair_pending.
Proof. apply reachable_step, one_up_reachable. Qed.

Lemma won_game_reachable : reachable rotate_deck "medium" won_game.
Proof. apply reachable_run, reachable_mount. Qed.

Lemma selection_has_callback_witness :
  reachable rotate_deck "medium" pair_pending
  /\ flippedCards (game pair_pending) = [0; 1]
  /\ exists t, In t (timers pair_pending) /\ firstId t = 0 /\ secondId t = 1
               /\ (branch t = MatchFound /\ delay t = 1000
                   \/ branch t = NoMatch /\ delay t = 1500).
Proof.
  split; [exact pair_pending_reachable |]. split; [reflexivity |].
  exact (selection_has_callback rotate_deck "medium" pair_pending 0 1
           pair_pending_reachable eq_refl).
Defined.

Lemma won_until_NewGame_witness :
  gameWon (game won_game) = true /\ isNewGame (Click 15000 14) = false
  /\ gameWon (game (demo_step won_game (Click 15000 14))) = true
  /\ timeElapsed (game (demo_step won_game (Click 15000 14)))
     = timeElapsed (game won_game).
Proof.
  assert (gameWon (game won_game) = true) as Hw by (vm_compute; reflexivity).
  split; [exact Hw |]. split; [reflexivity |].
  destruct (won_until_NewGame rotate_deck "medium" won_game (Click 15000 14)
              Hw eq_refl) as (H1 & H2 & _).
  split; [exact H1 | exact H2].
Defined.

Lemma callbacks_name_pairs_witness :
  reachable rotate_deck "medium" pair_pending
  /\ In (mkTimeout 0 1 MatchFound 1000 1300) (timers pair_pending)
  /\ 0 <> 1 /\ (MatchFound = MatchFound -> 0 / 2 = 1 / 2).
Proof.
  assert (In (mkTimeout 0 1 MatchFound 1000 1300) (timers pair_pending)) as Hin
    by (left; reflexivity).
  split; [exact pair_pending_reachable |]. split; [exact Hin |].
  exact (callbacks_name_pairs rotate_deck rotate_deck_perm "medium" pair_pending
           (mkTimeout 0 1 MatchFound 1000 1300) pair_pending_reachable Hin).
Defined.

Lemma matched_in_pairs_witness :
  reachable rotate_deck "medium" one_up
  /\ In (mkCard 0 "✈️" "Fighter Plane" false true) (cards (game one_up))
  /\ In (mkCard 1 "✈️" "Fighter Plane" false false) (cards (game one_up))
  /\ 0 / 2 = 1 / 2
  /\ matched (mkCard 0 "✈️" "Fighter Plane" false true)
     = matched (mkCard 1 "✈️" "Fighter Plane" false false).
Proof.
  split; [exact one_up_reachable |]. split; [exact card0_in_one_up |].
  split; [exact card1_in_one_up |]. split; [reflexivity |].
  exact (matched_in_pairs rotate_deck rotate_deck_perm "medium" one_up
           (mkCard 0 "✈️" "Fighter Plane" false true)
           (mkCard 1 "✈️" "Fighter Plane" false false)
           one_up_reachable card0_in_one_up card1_in_one_up eq_refl).
Defined.

Lemma display_matches_record_witness :
  reachable rotate_deck "medium" won_game
  /\ matchedPairs (game won_game) = totalPairs "medium"
  /\ gameStarted (game won_game) = true
  /\ exists earlier r,
       posted won_game = earlier ++ [(ToWindow, r); (ToParent, r)]
       /\ r = completionData "medium" (game won_game)
       /\ winMessage (game won_game)
          = Some [ "🏆 VICTORY! 🏆";
                   String.append "Mission Accomplished in "
                     (String.append (toString (data_moves r)) " moves!");
                   String.append "Time: " (formatTime (timeSpent r));
                   String.append "Score: "
                     (String.append (toString (score r)) " points") ].
Proof.
  assert (matchedPairs (game won_game) = totalPairs "medium") as Hp
    by (vm_compute; reflexivity).
  assert (gameStarted (game won_game) = true) as Hs
    by (vm_compute; reflexivity).
  split; [exact won_game_reachable |]. split; [exact Hp |]. split; [exact Hs |].
  exact (display_matches_record rotate_deck "medium" won_game
           won_game_reachable Hp Hs).
Defined.

Lemma tick_samples_only_witness :
  reachable rotate_deck "medium" one_up
  /\ (demo_step one_up (IntervalTick 100) = one_up
      \/ demo_step one_up (IntervalTick 100)
         = mkSys (setTimeElapsed (100 - startTime (game one_up)) (game one_up))
                 (timers one_up) (posted one_up)).
Proof.
  split; [exact one_up_reachable |].
  exact (tick_samples_only rotate_deck "medium" one_up 100 one_up_reachable).
Defined.

Lemma record_in_won_game :
  In (ToParent, completionData "medium" (game won_game)) (posted won_game).
Proof. vm_compute. right; left; reflexivity. Qed.

Lemma posted_records_witness :
  reachable rotate_deck "medium" won_game
  /\ In (ToParent, completionData "medium" (game won_game)) (posted won_game)
  /\ 100 <= score (completionData "medium" (game won_game)) <= 1000.
Proof.
  split; [exact won_game_reachable |]. split; [exact record_in_won_game |].
  destruct (posted_records rotate_deck "medium" won_game ToParent
              (completionData "medium" (game won_game))
              won_game_reachable record_in_won_game)
    as (_ & _ & _ & _ & _ & H & _).
  exact H.
Defined.

Lemma mismatch_resolution_witness :
  flippedCards (game one_up) = [0]
  /\ rejected 2 (game one_up) = false
  /\ findCard 0 (cards (game one_up))
     = Some (mkCard 0 "✈️" "Fighter Plane" false true)
  /\ findCard 2 (cards (game one_up))
     = Some (mkCard 2 "🚁" "Helicopter" false false)
  /\ "✈️" <> "🚁"
  /\ timers mismatch_pending = [mkTimeout 0 2 NoMatch 1500 1800]
  /\ flippedCards (game (demo_step mismatch_pending (TimeoutFires 0))) = [].
Proof.
  assert ("✈️" <> "🚁") as Hne by discriminate.
  do 4 (split; [reflexivity |]). split; [exact Hne |].
  destruct (mismatch_resolution rotate_deck "medium" one_up 300 2 0
              (mkCard 0 "✈️" "Fighter Plane" false true)
              (mkCard 2 "🚁" "Helicopter" false false)
              eq_refl eq_refl eq_refl eq_refl Hne)
    as (_ & _ & Ht & Hfire).
  split; [exact Ht |].
  exact (proj2 (proj2 (proj2 (Hfire mismatch_pending 0%nat eq_refl)))).
Defined.

Lemma won_entered_witness :
  reachable rotate_deck "medium" one_up /\ gameWon (game one_up) = false
  /\ (gameWon (game (demo_step one_up (Click 300 1))) = true
      <-> matchedPairs (game (demo_step one_up (Click 300 1))) = totalPairs "medium"
          /\ gameStarted (game (demo_step one_up (Click 300 1))) = true).
Proof.
  split; [exact one_up_reachable |]. split; [reflexivity |].
  exact (won_entered rotate_deck "medium" one_up (Click 300 1)
           one_up_reachable eq_refl).
Defined.

(** ** Rejected clicks *)

Section Rejected.

Variable shuffle : nat -> list Card -> list Card.
Hypothesis shuffle_perm : forall seed l, Permutation l (shuffle seed l).
Variable difficulty : string.

Local Abbreviation step := (step shuffle difficulty).
Local Abbreviation reachable := (reachable shuffle difficulty).




End Rejected.


